(** * CSRF token analyzer: a shallow embedding of [main.py]

    The analyzer scans Python sources for textual idioms of CSRF token
    generation and validation.  Everything it does is string processing:
    regular-expression search over file texts, lexical path normalisation
    for the exclusion test, a walk over a directory listing and the
    disjunction of per-file results.

    Conventions of the embedding.
    - A Python [str] is a Rocq [string]; a character is an [ascii], that is
      a code point in the range U+0000..U+00FF.
    - The calls into the standard library ([re], [os.path], [os.walk],
      [open]) are modelled by their documented behaviour on POSIX.
    - Logging, file-system access and [sys.exit] are effects: a computation
      returns its outcome together with the trace of events it performed. *)

From Stdlib Require Import Bool List String Ascii NArith ZArith Lia.
Import ListNotations.

Local Open Scope list_scope.
Local Open Scope string_scope.

(* ================================================================== *)
(** * Strings *)

Module Str.

(** Python's [needle in hay] on strings. *)
Fixpoint contains (needle hay : string) : bool :=
  String.prefix needle hay
  || match hay with
     | EmptyString => false
     | String _ hay' => contains needle hay'
     end.

(** Python's [s.startswith(p)]. *)
Definition startswith (s p : string) : bool := String.prefix p s.

Fixpoint rev_acc (s acc : string) : string :=
  match s with
  | EmptyString => acc
  | String c s' => rev_acc s' (String c acc)
  end.

Definition rev (s : string) : string := rev_acc s EmptyString.

(** Python's [s.endswith(suf)]. *)
Definition endswith (s suf : string) : bool :=
  String.prefix (rev suf) (rev s).

(** Python's [s.split(sep)] for a one-character separator. *)
Fixpoint split (sep : ascii) (s : string) : list string :=
  match s with
  | EmptyString => [EmptyString]
  | String c s' =>
      if Ascii.eqb c sep then EmptyString :: split sep s'
      else match split sep s' with
           | [] => [String c EmptyString]
           | w :: ws => String c w :: ws
           end
  end.

(** Python's [sep.join(parts)] is [String.concat sep parts]. *)
Definition join (sep : string) (parts : list string) : string :=
  String.concat sep parts.

(** Python's [c * n] for a string [c]. *)
Fixpoint repeat (c : string) (n : nat) : string :=
  match n with
  | O => EmptyString
  | S n' => c ++ repeat c n'
  end.

End Str.

(* ================================================================== *)
(** * Regular expressions: the fragment of [re] the analyzer uses *)

Module Re.

(** One-character matchers. *)
Inductive charset : Type :=
| CChar (c : ascii)                     (* a literal or escaped character *)
| CDot                                  (* [.]: anything but a newline *)
| CSpace                                (* [\s] *)
| CSet (ranges : list (ascii * ascii)). (* [[...]] as inclusive ranges *)

Definition newline : ascii := ascii_of_nat 10.

(** [str.isspace] on the code points below 256, which is what [\s] tests
    in a [str] pattern. *)
Definition whitespace_codes : list N :=
  [9; 10; 11; 12; 13; 28; 29; 30; 31; 32; 133; 160]%N.

Definition in_range (c : ascii) (r : ascii * ascii) : bool :=
  (N_of_ascii (fst r) <=? N_of_ascii c)%N
  && (N_of_ascii c <=? N_of_ascii (snd r))%N.

Definition charset_mem (cs : charset) (c : ascii) : bool :=
  match cs with
  | CChar d => Ascii.eqb c d
  | CDot => negb (Ascii.eqb c newline)
  | CSpace => existsb (N.eqb (N_of_ascii c)) whitespace_codes
  | CSet ranges => existsb (in_range c) ranges
  end.

Inductive regex : Type :=
| Empty                       (* matches nothing *)
| Eps                         (* matches the empty string *)
| Sym (cs : charset)
| Cat (r1 r2 : regex)
| Alt (r1 r2 : regex)
| Star (r : regex).

(** [r+], [r?] and a literal word. *)
Definition Plus (r : regex) : regex := Cat r (Star r).
Definition Opt (r : regex) : regex := Alt r Eps.

Fixpoint Lit (s : string) : regex :=
  match s with
  | EmptyString => Eps
  | String c s' => Cat (Sym (CChar c)) (Lit s')
  end.

Fixpoint Seq (rs : list regex) : regex :=
  match rs with
  | [] => Eps
  | r :: rs' => Cat r (Seq rs')
  end.

(** The language of a pattern. *)
Inductive Matches : regex -> string -> Prop :=
| MEps : Matches Eps EmptyString
| MSym cs c : charset_mem cs c = true -> Matches (Sym cs) (String c EmptyString)
| MCat r1 r2 s1 s2 :
    Matches r1 s1 -> Matches r2 s2 -> Matches (Cat r1 r2) (s1 ++ s2)
| MAltL r1 r2 s : Matches r1 s -> Matches (Alt r1 r2) s
| MAltR r1 r2 s : Matches r2 s -> Matches (Alt r1 r2) s
| MStarNil r : Matches (Star r) EmptyString
| MStarApp r s1 s2 :
    Matches r s1 -> Matches (Star r) s2 -> Matches (Star r) (s1 ++ s2).

(** The matcher works by derivatives. *)
Fixpoint nullable (r : regex) : bool :=
  match r with
  | Empty => false
  | Eps => true
  | Sym _ => false
  | Cat r1 r2 => nullable r1 && nullable r2
  | Alt r1 r2 => nullable r1 || nullable r2
  | Star _ => true
  end.

Definition mkCat (r1 r2 : regex) : regex :=
  match r1, r2 with
  | Empty, _ => Empty
  | _, Empty => Empty
  | Eps, _ => r2
  | _, _ => Cat r1 r2
  end.

Definition mkAlt (r1 r2 : regex) : regex :=
  match r1, r2 with
  | Empty, _ => r2
  | _, Empty => r1
  | _, _ => Alt r1 r2
  end.

Fixpoint deriv (c : ascii) (r : regex) : regex :=
  match r with
  | Empty => Empty
  | Eps => Empty
  | Sym cs => if charset_mem cs c then Eps else Empty
  | Cat r1 r2 =>
      if nullable r1
      then mkAlt (mkCat (deriv c r1) r2) (deriv c r2)
      else mkCat (deriv c r1) r2
  | Alt r1 r2 => mkAlt (deriv c r1) (deriv c r2)
  | Star r1 => mkCat (deriv c r1) (Star r1)
  end.

(** [re.fullmatch(r, s) is not None]. *)
Fixpoint fullmatch (r : regex) (s : string) : bool :=
  match s with
  | EmptyString => nullable r
  | String c s' => fullmatch (deriv c r) s'
  end.

(** Some prefix of [s] matches [r]: an attempt at one start position. *)
Fixpoint match_here (r : regex) (s : string) : bool :=
  nullable r
  || match s with
     | EmptyString => false
     | String c s' => match_here (deriv c r) s'
     end.

(** [re.search(r, s) is not None]: the start positions are tried from
    left to right over the whole text. *)
Fixpoint search (r : regex) (s : string) : bool :=
  match_here r s
  || match s with
     | EmptyString => false
     | String _ s' => search r s'
     end.

(** [re.match] of the pattern [^r$] finds a match.  Without [re.MULTILINE] the
    anchor [$] holds at the end of the string and also just before a
    newline that is the last character of the string. *)
Definition match_anchored (r : regex) (s : string) : bool :=
  fullmatch r s || fullmatch (Cat r (Sym (CChar newline))) s.

End Re.

(* ================================================================== *)
(** * Paths: [posixpath.join] and [posixpath.normpath] *)

Module Path.

Definition sep : string := "/".

(** [os.path.join(a, b)]: an absolute [b] discards [a]. *)
Definition join (a b : string) : string :=
  if Str.startswith b sep then b
  else if (a =? "")%string || Str.endswith a sep then a ++ b
  else a ++ sep ++ b.

(** One round of the loop of [normpath].  [new_comps] is held with its
    last component first, so that [new_comps[-1]] is the head and
    [new_comps.pop()] drops it. *)
Definition normpath_step (initial_slashes : nat)
    (new_comps : list string) (comp : string) : list string :=
  if (comp =? "")%string || (comp =? ".")%string then new_comps
  else
    if negb (comp =? "..")%string
       || (Nat.eqb initial_slashes 0
           && match new_comps with [] => true | _ => false end)
       || match new_comps with
          | last :: _ => (last =? "..")%string
          | [] => false
          end
    then comp :: new_comps
    else match new_comps with
         | _ :: rest => rest
         | [] => new_comps
         end.

(** [os.path.normpath(path)]. *)
Definition normpath (path : string) : string :=
  if (path =? "")%string then "."
  else
    let initial_slashes :=
      if Str.startswith path sep
      then if Str.startswith path "//" && negb (Str.startswith path "///")
           then 2 else 1
      else 0 in
    let comps := Str.split "/"%char path in
    let new_comps := fold_left (normpath_step initial_slashes) comps [] in
    let joined := Str.join sep (List.rev new_comps) in
    let path' :=
      if Nat.eqb initial_slashes 0 then joined
      else Str.repeat sep initial_slashes ++ joined in
    if (path' =? "")%string then "." else path'.

End Path.

(* ================================================================== *)
(** * Effects: the log, the file system and [sys.exit] *)

Inductive level : Type := INFO | WARNING | ERROR.

Inductive event : Type :=
| Log (lvl : level) (msg : string)   (* logging.info / warning / error *)
| IsFile (path : string)             (* os.path.isfile *)
| IsDir (path : string)              (* os.path.isdir *)
| Walk (top : string)                (* os.walk *)
| Open (path : string).              (* open(path, 'r', encoding='utf-8') *)

(** What [open] followed by [read] gives. *)
Inductive read_result : Type :=
| ReadOk (code : string)
| ReadNotFound                       (* FileNotFoundError *)
| ReadFailed (e : string).           (* any other exception, with its text *)

(** The file system as the program sees it: one field per call it makes.
    [fs_walk top] is the sequence of triples [(root, dirs, files)] that
    [os.walk(top)] yields. *)
Record filesystem : Type := {
  fs_isfile : string -> bool;
  fs_isdir : string -> bool;
  fs_walk : string -> list (string * list string * list string);
  fs_read : string -> read_result
}.

Inductive outcome (A : Type) : Type :=
| Done (a : A)
| Exited (code : Z).                 (* SystemExit raised by sys.exit *)

Arguments Done {A} a.
Arguments Exited {A} code.

(** A computation: its outcome and the events it performed, in order. *)
Definition M (A : Type) : Type := outcome A * list event.

Definition ret {A : Type} (a : A) : M A := (Done a, []).

Definition bind {A B : Type} (m : M A) (f : A -> M B) : M B :=
  match m with
  | (Done a, t) => let (o, t') := f a in (o, (t ++ t')%list)
  | (Exited code, t) => (Exited code, t)
  end.

Declare Scope m_scope.
Delimit Scope m_scope with m.
Notation "x <- m ;; k" := (bind m (fun x => k))
  (at level 61, m at next level, right associativity) : m_scope.
Notation "' pat <- m ;; k" := (bind m (fun x => match x with pat => k end))
  (at level 61, pat pattern, m at next level, right associativity) : m_scope.
Notation "m ;; k" := (bind m (fun _ => k))
  (at level 61, right associativity) : m_scope.
Local Open Scope m_scope.

Definition emit (e : event) : M unit := (Done tt, [e]).
Definition log (lvl : level) (msg : string) : M unit := emit (Log lvl msg).
Definition sys_exit {A : Type} (code : Z) : M A := (Exited code, []).

Definition os_path_isfile (fs : filesystem) (p : string) : M bool :=
  emit (IsFile p) ;; ret (fs_isfile fs p).
Definition os_path_isdir (fs : filesystem) (p : string) : M bool :=
  emit (IsDir p) ;; ret (fs_isdir fs p).
(** The loop of [analyze_directory] consumes the generator of [os.walk] to
    its end and the file system does not change during a run, so the
    triples are taken at once. *)
Definition os_walk (fs : filesystem) (top : string)
  : M (list (string * list string * list string)) :=
  emit (Walk top) ;; ret (fs_walk fs top).
Definition open_read (fs : filesystem) (p : string) : M read_result :=
  emit (Open p) ;; ret (fs_read fs p).

(** A [for] loop that threads the variables the body assigns. *)
Fixpoint for_each {A S : Type} (xs : list A) (body : A -> S -> M S) (s : S)
  : M S :=
  match xs with
  | [] => ret s
  | x :: xs' => s' <- body x s ;; for_each xs' body s'
  end.

Definition value {A : Type} (m : M A) : outcome A := fst m.
Definition trace {A : Type} (m : M A) : list event := snd m.

(** The exit status of the process when [m] is the whole program. *)
Definition exit_code (m : M unit) : Z :=
  match value m with
  | Done _ => 0%Z
  | Exited code => code
  end.

(* ================================================================== *)
(** * The pattern matchers *)

Import Re.

Definition chr (c : ascii) : regex := Sym (CChar c).
Definition dquote : ascii := ascii_of_nat 34.

(** The pieces the patterns share: [\s*], [\s+], [.*], the class
    [[a-zA-Z0-9_]] and the class of the two quote characters, written [Q]
    in the pattern texts quoted below. *)
Definition spaces : regex := Star (Sym CSpace).
Definition spaces1 : regex := Plus (Sym CSpace).
Definition anything : regex := Star (Sym CDot).
Definition word_char : charset :=
  CSet [("a", "z"); ("A", "Z"); ("0", "9"); ("_", "_")]%char.
Definition quote : regex :=
  Sym (CSet [("'"%char, "'"%char); (dquote, dquote)]).
(** [(form|POST)] *)
Definition form_or_post : regex := Alt (Lit "form") (Lit "POST").

(** The four patterns of [is_token_generation_present].  The source
    splices the name into the pattern text.  These definitions read the
    name letter by letter: they are the patterns of the source for the
    names that pass the check of [main] ([name_matches]), which hold no
    metacharacter (lemma [accepted_names_are_literal]), and every
    statement below about what the patterns find carries that check as a
    hypothesis.  For a name with a metacharacter the source builds another
    pattern, or none at all. *)
Definition generation_patterns (token_name : string) : list regex :=
  [ (* {token_name} \s* = \s* ([a-zA-Z0-9_]+\.)? generate [_]* token \s* \( .* \) *)
    Seq [Lit token_name; spaces; chr "="; spaces;
         Opt (Cat (Plus (Sym word_char)) (chr "."));
         Lit "generate"; Star (Sym (CSet [("_", "_")]%char)); Lit "token";
         spaces; chr "("; anything; chr ")"];
    (* {token_name} \s* = \s* secrets\.token_hex \s* \( .* \) *)
    Seq [Lit token_name; spaces; chr "="; spaces; Lit "secrets"; chr ".";
         Lit "token_hex"; spaces; chr "("; anything; chr ")"];
    (* {token_name} \s* = \s* os\.urandom \s* \( .* \) *)
    Seq [Lit token_name; spaces; chr "="; spaces; Lit "os"; chr ".";
         Lit "urandom"; spaces; chr "("; anything; chr ")"];
    (* {token_name} \s* = \s* uuid\.uuid4 \s* \( .* \) *)
    Seq [Lit token_name; spaces; chr "="; spaces; Lit "uuid"; chr ".";
         Lit "uuid4"; spaces; chr "("; anything; chr ")"] ].

(** The four patterns of [is_token_validation_present], for names that
    pass the check of [main] (see [generation_patterns]).  In the second
    and the fourth the text after the quoted field name is [\]] and []]: a
    closing square bracket follows the opening parenthesis of [get]. *)
Definition validation_patterns (token_name form_field : string) : list regex :=
  [ (* if \s+ request\.(form|POST) \s* \[ Q {form_field} Q \] .* != \s* {token_name} .* *)
    Seq [Lit "if"; spaces1; Lit "request"; chr "."; form_or_post; spaces;
         chr "["; quote; Lit form_field; quote; chr "]";
         anything; Lit "!="; spaces; Lit token_name; anything];
    (* if \s+ request\.(form|POST)\.get \s* \( Q {form_field} Q \] .* != \s* {token_name} .* *)
    Seq [Lit "if"; spaces1; Lit "request"; chr "."; form_or_post; chr ".";
         Lit "get"; spaces;
         chr "("; quote; Lit form_field; quote; chr "]";
         anything; Lit "!="; spaces; Lit token_name; anything];
    (* if \s+ session \s* \[ Q {token_name} Q \] .* != \s*
          request\.(form|POST) \s* \[ Q {form_field} Q ] .* *)
    Seq [Lit "if"; spaces1; Lit "session"; spaces;
         chr "["; quote; Lit token_name; quote; chr "]";
         anything; Lit "!="; spaces; Lit "request"; chr "."; form_or_post;
         spaces; chr "["; quote; Lit form_field; quote; chr "]"; anything];
    (* if \s+ session \s* \[ Q {token_name} Q \] .* != \s*
          request\.(form|POST)\.get \s* \( Q {form_field} Q ] .* *)
    Seq [Lit "if"; spaces1; Lit "session"; spaces;
         chr "["; quote; Lit token_name; quote; chr "]";
         anything; Lit "!="; spaces; Lit "request"; chr "."; form_or_post;
         chr "."; Lit "get"; spaces;
         chr "("; quote; Lit form_field; quote; chr "]"; anything] ].

(** [for pattern in patterns: if re.search(pattern, code): return True]
    and [return False] after the loop. *)
Fixpoint search_patterns (patterns : list regex) (code : string) : bool :=
  match patterns with
  | [] => false
  | pattern :: rest =>
      if search pattern code then true else search_patterns rest code
  end.

Definition is_token_generation_present (code token_name : string) : bool :=
  search_patterns (generation_patterns token_name) code.

Definition is_token_validation_present (code token_name form_field : string)
  : bool :=
  search_patterns (validation_patterns token_name form_field) code.

(* ================================================================== *)
(** * File and directory analysis *)

Definition analyze_file (fs : filesystem) (file_path token_name form_field : string)
  : M (bool * bool) :=
  r <- open_read fs file_path ;;
  match r with
  | ReadNotFound =>
      log ERROR ("File not found: " ++ file_path) ;;
      ret (false, false)
  | ReadFailed e =>
      log ERROR ("Error reading file " ++ file_path ++ ": " ++ e) ;;
      ret (false, false)
  | ReadOk code =>
      let generation_found := is_token_generation_present code token_name in
      let validation_found :=
        is_token_validation_present code token_name form_field in
      ret (generation_found, validation_found)
  end.

(** The test of the [any(...)] in [analyze_directory] for one entry. *)
Definition exclusion_hits (dir_path file_path ex : string) : bool :=
  (Path.normpath (Path.join dir_path ex) =? Path.normpath file_path)%string
  || Str.contains (Path.normpath (Path.join dir_path ex))
                  (Path.normpath file_path).

Definition is_excluded (dir_path : string) (exclude : list string)
    (file_path : string) : bool :=
  existsb (exclusion_hits dir_path file_path) exclude.

(** The inner loop of [analyze_directory], over the files of one triple of
    the walk.  The loop carries [generation_found] and [validation_found];
    [continue] leaves them as they are. *)
Definition scan_files (fs : filesystem)
    (dir_path token_name form_field : string) (exclude : list string)
    (root : string) (files : list string) (found : bool * bool)
  : M (bool * bool) :=
  for_each files (fun file '(generation_found, validation_found) =>
    if Str.endswith file ".py" then
      let file_path := Path.join root file in
      if is_excluded dir_path exclude file_path then
        log INFO ("Skipping excluded file: " ++ file_path) ;;
        ret (generation_found, validation_found)
      else
        '(gen, val) <- analyze_file fs file_path token_name form_field ;;
        ret (generation_found || gen, validation_found || val)
    else ret (generation_found, validation_found))
  found.

Definition analyze_directory (fs : filesystem)
    (dir_path token_name form_field : string) (exclude : list string)
  : M (bool * bool) :=
  triples <- os_walk fs dir_path ;;
  for_each triples (fun '(root, _, files) found =>
    scan_files fs dir_path token_name form_field exclude root files found)
  (false, false).

(* ================================================================== *)
(** * The command line *)

(** The namespace that [parser.parse_args()] returns. *)
Record arguments : Type := {
  source_code_path : string;
  token_name : string;
  form_field : string;
  exclude : list string
}.

(** [[a-zA-Z_][a-zA-Z0-9_]*], the body of the pattern between [^] and [$]. *)
Definition identifier : regex :=
  Cat (Sym (CSet [("a", "z"); ("A", "Z"); ("_", "_")]%char))
      (Star (Sym word_char)).

(** [re.match] of a name against that pattern. *)
Definition name_matches (name : string) : bool :=
  match_anchored identifier name.

Definition main (fs : filesystem) (args : arguments) : M unit :=
  let source_code_path := source_code_path args in
  let token_name := token_name args in
  let form_field := form_field args in
  let exclude := exclude args in
  if negb (name_matches token_name) || negb (name_matches form_field) then
    log ERROR "Invalid token_name or form_field.  Must start with a letter or underscore and contain only alphanumeric characters and underscores." ;;
    sys_exit 1%Z
  else
    '(generation_found, validation_found) <-
      (is_file <- os_path_isfile fs source_code_path ;;
       if is_file then
         analyze_file fs source_code_path token_name form_field
       else
         is_dir <- os_path_isdir fs source_code_path ;;
         if is_dir then
           analyze_directory fs source_code_path token_name form_field exclude
         else
           log ERROR ("Invalid source code path: " ++ source_code_path) ;;
           sys_exit 1) ;;
    (if generation_found
     then log INFO "CSRF token generation logic found."
     else log WARNING "CSRF token generation logic NOT found.") ;;
    (if validation_found
     then log INFO "CSRF token validation logic found."
     else log WARNING "CSRF token validation logic NOT found.").

(* ================================================================== *)
(** * Vocabulary of the statements *)

(** [Occurs r s]: some substring of the text [s] is in the language of
    [r], wherever it starts and whatever lines it spans. *)
Definition Occurs (r : regex) (s : string) : Prop :=
  exists pre m suf, s = pre ++ m ++ suf /\ Matches r m.

(** A substring, as a proposition. *)
Definition Substring (needle hay : string) : Prop :=
  exists pre suf, hay = pre ++ needle ++ suf.

(** The first pattern of [patterns] that occurs in [code] is [p]. *)
Definition FirstHit (patterns : list regex) (code : string) (p : regex) : Prop :=
  exists before after,
    patterns = (before ++ p :: after)%list
    /\ Forall (fun q => ~ Occurs q code) before
    /\ Occurs p code.

(** The paths the directory loop forms, in the order of the walk: the
    files whose name ends in [.py], joined to the root of their triple. *)
Definition candidate_paths (triples : list (string * list string * list string))
  : list string :=
  flat_map (fun '(root, _, files) =>
              map (Path.join root)
                  (filter (fun file => Str.endswith file ".py") files))
           triples.

(** The candidates that survive the exclusion test and reach
    [analyze_file]. *)
Definition scanned_files (fs : filesystem) (dir_path : string)
    (exclude : list string) : list string :=
  filter (fun p => negb (is_excluded dir_path exclude p))
         (candidate_paths (fs_walk fs dir_path)).

(** What [analyze_file] returns and logs, read off the file system. *)
Definition file_result (fs : filesystem) (token_name form_field path : string)
  : bool * bool :=
  match fs_read fs path with
  | ReadOk code =>
      (is_token_generation_present code token_name,
       is_token_validation_present code token_name form_field)
  | _ => (false, false)
  end.

Definition file_trace (fs : filesystem) (path : string) : list event :=
  match fs_read fs path with
  | ReadOk _ => [Open path]
  | ReadNotFound => [Open path; Log ERROR ("File not found: " ++ path)]
  | ReadFailed e =>
      [Open path; Log ERROR ("Error reading file " ++ path ++ ": " ++ e)]
  end.

Definition readable (fs : filesystem) (path : string) : bool :=
  match fs_read fs path with
  | ReadOk _ => true
  | _ => false
  end.

(** The events of one candidate inside the directory loop. *)
Definition skip_event (path : string) : event :=
  Log INFO ("Skipping excluded file: " ++ path).

Definition visit_trace (fs : filesystem) (dir_path : string)
    (exclude : list string) (path : string) : list event :=
  if is_excluded dir_path exclude path then [skip_event path]
  else file_trace fs path.

(** The two closing log lines of [main]. *)
Definition report_generation (found : bool) : event :=
  if found then Log INFO "CSRF token generation logic found."
  else Log WARNING "CSRF token generation logic NOT found.".

Definition report_validation (found : bool) : event :=
  if found then Log INFO "CSRF token validation logic found."
  else Log WARNING "CSRF token validation logic NOT found.".

Definition invalid_names_event : event :=
  Log ERROR "Invalid token_name or form_field.  Must start with a letter or underscore and contain only alphanumeric characters and underscores.".

(** The two request objects and the two quote characters of the patterns. *)
Definition obj_name (post : bool) : string := if post then "POST" else "form".
Definition quote_char (double : bool) : ascii :=
  if double then dquote else "'"%char.

(** An event that touches the file system. *)
Definition is_io (e : event) : bool :=
  match e with
  | Log _ _ => false
  | _ => true
  end.

(** The identifier shape in the words of the specification and of the
    error message of [main]: a letter or an underscore, followed by
    letters, digits and underscores only. *)
Definition is_letter_or_underscore (c : ascii) : bool :=
  charset_mem (CSet [("a", "z"); ("A", "Z"); ("_", "_")]%char) c.

Fixpoint all_word_chars (s : string) : bool :=
  match s with
  | EmptyString => true
  | String c s' => charset_mem word_char c && all_word_chars s'
  end.

Definition is_identifier (name : string) : bool :=
  match name with
  | EmptyString => false
  | String c rest => is_letter_or_underscore c && all_word_chars rest
  end.

(* ================================================================== *)
(** * A directory tree as a file system *)

Module Tree.

#[local] Set Warnings "-register-all".

Inductive node : Type :=
| File (r : read_result)
| Dir (entries : list (string * node)).

Definition is_dir (n : node) : bool :=
  match n with
  | Dir _ => true
  | File _ => false
  end.

Definition dir_names (entries : list (string * node)) : list string :=
  map fst (filter (fun e => is_dir (snd e)) entries).

Definition file_names (entries : list (string * node)) : list string :=
  map fst (filter (fun e => negb (is_dir (snd e))) entries).

(** [os.walk(top)], top-down and without following links: the triple of
    [top], then the walks of its sub-directories in listing order.
    Walking something that is not a directory yields nothing. *)
Fixpoint walk (top : string) (n : node)
  : list (string * list string * list string) :=
  match n with
  | File _ => []
  | Dir entries =>
      (top, dir_names entries, file_names entries)
      :: (fix below (es : list (string * node)) :=
            match es with
            | [] => []
            | (name, child) :: es' =>
                (walk (Path.join top name) child ++ below es')%list
            end) entries
  end.

Fixpoint find_entry (name : string) (entries : list (string * node))
  : option node :=
  match entries with
  | [] => None
  | (n, child) :: rest =>
      if (n =? name)%string then Some child else find_entry name rest
  end.

Fixpoint lookup (comps : list string) (n : node) : option node :=
  match comps with
  | [] => Some n
  | comp :: comps' =>
      match n with
      | Dir entries =>
          match find_entry comp entries with
          | Some child => lookup comps' child
          | None => None
          end
      | File _ => None
      end
  end.

(** A relative path, resolved from the working directory [cwd]. *)
Definition resolve (cwd : node) (path : string) : option node :=
  lookup (filter (fun comp => negb ((comp =? "")%string || (comp =? ".")%string))
                 (Str.split "/"%char path))
         cwd.

Definition filesystem_of (cwd : node) : filesystem :=
  {| fs_isfile p :=
       match resolve cwd p with Some (File _) => true | _ => false end;
     fs_isdir p :=
       match resolve cwd p with Some (Dir _) => true | _ => false end;
     fs_walk p :=
       match resolve cwd p with Some n => walk p n | None => [] end;
     fs_read p :=
       match resolve cwd p with
       | Some (File r) => r
       | Some (Dir _) => ReadFailed "[Errno 21] Is a directory"
       | None => ReadNotFound
       end |}.

End Tree.

(** A small project used in the examples below. *)
Definition generation_text : string := "csrf_token = os.urandom(24)".
Definition subscript_validation_text : string :=
  "if request.form['csrf_token'] != csrf_token:".
Definition call_validation_text : string :=
  "if request.form.get('csrf_token') != csrf_token:".

Definition project : Tree.node :=
  Tree.Dir
    [("proj",
      Tree.Dir
        [("gen.py", Tree.File (ReadOk generation_text));
         ("val.py", Tree.File (ReadOk subscript_validation_text));
         ("notes.txt", Tree.File (ReadOk generation_text));
         ("sub",
          Tree.Dir [("test_views.py", Tree.File (ReadOk generation_text))]);
         ("test_app.py", Tree.File (ReadOk subscript_validation_text))]);
     ("docs", Tree.Dir [("readme.md", Tree.File (ReadOk generation_text))]);
     ("empty", Tree.Dir []);
     ("pair",
      Tree.Dir
        [("gen.py", Tree.File (ReadOk generation_text));
         ("val.py", Tree.File (ReadOk subscript_validation_text))]);
     ("broken",
      Tree.Dir
        [("a.py", Tree.File (ReadFailed "'utf-8' codec can't decode byte 0xff"));
         ("b.py", Tree.File (ReadOk generation_text))]);
     ("call.py", Tree.File (ReadOk call_validation_text))].

Definition project_fs : filesystem := Tree.filesystem_of project.

(* ================================================================== *)
(** * Further vocabulary: texts, names and the pieces of [normpath] *)

(** Every character of [s] is one that [\s] matches. *)
Fixpoint all_space (s : string) : bool :=
  match s with
  | EmptyString => true
  | String c s' => charset_mem CSpace c && all_space s'
  end.

(** No character of [s] is a newline: [s] is a word of [.*]. *)
Fixpoint no_newline (s : string) : bool :=
  match s with
  | EmptyString => true
  | String c s' => charset_mem CDot c && no_newline s'
  end.

(** The calls that the generation patterns name: [generate_token] with
    any number of underscores and an optional receiver, and the three
    library calls. *)
Inductive generator : Type :=
| GenerateToken (receiver : string) (underscores : nat)
| TokenHex
| Urandom
| Uuid4.

Definition generator_call (g : generator) : string :=
  match g with
  | GenerateToken receiver underscores =>
      (if (receiver =? "")%string then "" else receiver ++ ".")
      ++ "generate" ++ Str.repeat "_" underscores ++ "token"
  | TokenHex => "secrets.token_hex"
  | Urandom => "os.urandom"
  | Uuid4 => "uuid.uuid4"
  end.

Definition receiver_ok (g : generator) : bool :=
  match g with
  | GenerateToken receiver _ => all_word_chars receiver
  | _ => true
  end.

(** The two INFO lines with which [main] announces a finding. *)
Definition generation_found_line : event :=
  Log INFO "CSRF token generation logic found.".
Definition validation_found_line : event :=
  Log INFO "CSRF token validation logic found.".

(** A name as a directory lists it: not empty, without a slash, and
    neither [.] nor [..]. *)
Fixpoint no_slash (s : string) : bool :=
  match s with
  | EmptyString => true
  | String c s' => negb (Ascii.eqb c "/"%char) && no_slash s'
  end.

Definition plain_name (name : string) : bool :=
  no_slash name
  && negb ((name =? "")%string || (name =? ".")%string || (name =? "..")%string).

(** The number of leading slashes that [normpath] keeps, and the stack of
    components it is left with (last component first). *)
Definition initial_slashes_of (path : string) : nat :=
  if Str.startswith path Path.sep
  then if Str.startswith path "//" && negb (Str.startswith path "///")
       then 2 else 1
  else 0.

Definition components_of (path : string) : list string :=
  fold_left (Path.normpath_step (initial_slashes_of path))
            (Str.split "/"%char path) [].

(** The number of slashes a path starts with. *)
Fixpoint leading_slashes (s : string) : nat :=
  match s with
  | EmptyString => 0
  | String c s' => if Ascii.eqb c "/"%char then S (leading_slashes s') else 0
  end.

(** The path of an entry reached from [top] through the names [names],
    formed the way [os.walk] and the directory loop form it. *)
Definition descend (top : string) (names : list string) : string :=
  fold_left Path.join names top.

(** The pair directory with its two files listed in the other order. *)
Definition pair_reversed_fs : filesystem :=
  Tree.filesystem_of
    (Tree.Dir
       [("pair",
         Tree.Dir
           [("val.py", Tree.File (ReadOk subscript_validation_text));
            ("gen.py", Tree.File (ReadOk generation_text))])]).

(* ================================================================== *)
(** * Facts about strings *)

Section StringFacts.

Lemma append_nil_r (s : string) : s ++ "" = s.
Proof. induction s as [|c s IH]; simpl; [reflexivity | now rewrite IH]. Qed.

Lemma append_assoc (s1 s2 s3 : string) : (s1 ++ s2) ++ s3 = s1 ++ s2 ++ s3.
Proof. induction s1 as [|c s1 IH]; simpl; [reflexivity | now rewrite IH]. Qed.

Lemma append_eq_nil (s1 s2 : string) : s1 ++ s2 = "" -> s1 = "" /\ s2 = "".
Proof. destruct s1; simpl; [auto | discriminate]. Qed.

Lemma prefix_spec (p s : string) :
  String.prefix p s = true <-> exists suf, s = p ++ suf.
Proof.
  revert s; induction p as [|c p IH]; intros s.
  - split; [intros _; exists s; reflexivity | destruct s; reflexivity].
  - destruct s as [|d s]; simpl.
    + split; [discriminate | intros [suf H]; discriminate].
    + destruct (ascii_dec c d) as [->|Hne].
      * rewrite IH. split; intros [suf H]; exists suf.
        -- now rewrite H.
        -- now injection H.
      * split; [discriminate | intros [suf H]; injection H; intros; congruence].
Qed.

(** [needle in hay] holds exactly when [needle] is a substring of [hay]. *)
Lemma contains_spec (needle hay : string) :
  Str.contains needle hay = true
  <-> exists pre suf, hay = pre ++ needle ++ suf.
Proof.
  induction hay as [|c hay IH]; cbn [Str.contains].
  - rewrite orb_false_r, prefix_spec. split.
    + intros [suf H]. exists "", suf. exact H.
    + intros [pre [suf H]]. symmetry in H.
      apply append_eq_nil in H as [-> H]. exists suf. now rewrite H.
  - rewrite orb_true_iff, prefix_spec, IH. split.
    + intros [[suf H] | [pre [suf H]]].
      * exists "", suf. exact H.
      * exists (String c pre), suf. simpl. now rewrite H.
    + intros [[|d pre] [suf H]].
      * left. exists suf. exact H.
      * right. simpl in H. injection H as _ H. exists pre, suf. exact H.
Qed.

Lemma contains_refl (s : string) : Str.contains s s = true.
Proof. apply contains_spec. exists "", "". simpl. now rewrite append_nil_r. Qed.

End StringFacts.

(* ================================================================== *)
(** * The matcher decides the language of a pattern *)

Create HintDb re.

Section RegexFacts.

Local Hint Constructors Matches : re.

Lemma Matches_Empty (s : string) : ~ Matches Empty s.
Proof. intros H; inversion H. Qed.

Lemma Matches_Eps (s : string) : Matches Eps s -> s = "".
Proof. intros H; now inversion H. Qed.

Lemma Matches_Sym_inv (cs : charset) (s : string) :
  Matches (Sym cs) s -> exists c, s = String c "" /\ charset_mem cs c = true.
Proof. intros H; inversion H; subst; eauto. Qed.

Lemma Matches_Cat_inv (r1 r2 : regex) (s : string) :
  Matches (Cat r1 r2) s ->
  exists s1 s2, s = s1 ++ s2 /\ Matches r1 s1 /\ Matches r2 s2.
Proof. intros H; inversion H; subst; eauto. Qed.

Lemma Matches_Alt_inv (r1 r2 : regex) (s : string) :
  Matches (Alt r1 r2) s -> Matches r1 s \/ Matches r2 s.
Proof. intros H; inversion H; subst; auto. Qed.

Lemma Matches_Cat_cons (r1 r2 : regex) (c : ascii) (s1 s2 : string) :
  Matches r1 (String c s1) -> Matches r2 s2 ->
  Matches (Cat r1 r2) (String c (s1 ++ s2)).
Proof.
  intros H1 H2.
  change (String c (s1 ++ s2)) with (String c s1 ++ s2)%string.
  auto with re.
Qed.

Lemma Matches_Cat_nil_l (r1 r2 : regex) (s : string) :
  Matches r1 "" -> Matches r2 s -> Matches (Cat r1 r2) s.
Proof.
  intros H1 H2. change s with ("" ++ s)%string. auto with re.
Qed.

Lemma nullable_spec (r : regex) : nullable r = true <-> Matches r "".
Proof.
  induction r as [| |cs|r1 IH1 r2 IH2|r1 IH1 r2 IH2|r IH]; simpl.
  - split; [discriminate | intros H; inversion H].
  - split; auto with re.
  - split; [discriminate | intros H; inversion H].
  - rewrite andb_true_iff, IH1, IH2. split.
    + intros [H1 H2]. now apply Matches_Cat_nil_l.
    + intros H. apply Matches_Cat_inv in H as [s1 [s2 [E [H1 H2]]]].
      symmetry in E. apply append_eq_nil in E as [-> ->]. auto.
  - rewrite orb_true_iff, IH1, IH2. split.
    + intros [H|H]; auto with re.
    + apply Matches_Alt_inv.
  - split; auto with re.
Qed.

Lemma mkCat_spec (r1 r2 : regex) (s : string) :
  Matches (mkCat r1 r2) s <-> Matches (Cat r1 r2) s.
Proof.
  split.
  - destruct r1, r2; simpl; intros H;
      try solve [exact H | exfalso; exact (Matches_Empty _ H)];
      apply Matches_Cat_nil_l; auto with re.
  - intros H. apply Matches_Cat_inv in H as [s1 [s2 [-> [H1 H2]]]].
    destruct r1; try solve [exfalso; exact (Matches_Empty _ H1)];
      destruct r2; try solve [exfalso; exact (Matches_Empty _ H2)];
      simpl; auto with re;
      apply Matches_Eps in H1; subst; simpl; auto with re.
Qed.

Lemma mkAlt_spec (r1 r2 : regex) (s : string) :
  Matches (mkAlt r1 r2) s <-> Matches (Alt r1 r2) s.
Proof.
  split.
  - destruct r1, r2; simpl; intros H; auto with re.
  - intros H. apply Matches_Alt_inv in H as [H|H].
    + destruct r1; try solve [exfalso; exact (Matches_Empty _ H)];
        destruct r2; simpl; auto with re.
    + destruct r2; try solve [exfalso; exact (Matches_Empty _ H)];
        destruct r1; simpl; auto with re.
Qed.

(** A non-empty word of [r*] starts with a non-empty word of [r]. *)
Lemma Matches_Star_cons (r : regex) (c : ascii) (s : string) :
  Matches (Star r) (String c s) ->
  exists s1 s2,
    s = s1 ++ s2 /\ Matches r (String c s1) /\ Matches (Star r) s2.
Proof.
  intros H. remember (Star r) as r' eqn:Er. remember (String c s) as w eqn:Ew.
  revert s Ew.
  induction H as [| | | | | |r0 s1 s2 H1 _ H2 IH2]; try discriminate.
  injection Er as ->. intros s Ew.
  destruct s1 as [|d s1]; simpl in Ew.
  - apply IH2; auto.
  - injection Ew as -> <-. exists s1, s2. auto.
Qed.

Lemma deriv_spec (c : ascii) (r : regex) (s : string) :
  Matches (deriv c r) s <-> Matches r (String c s).
Proof.
  revert s.
  induction r as [| |cs|r1 IH1 r2 IH2|r1 IH1 r2 IH2|r IH]; intros s; simpl.
  - split; intros H; inversion H.
  - split; intros H; inversion H.
  - destruct (charset_mem cs c) eqn:E; split; intros H.
    + apply Matches_Eps in H; subst. auto with re.
    + apply Matches_Sym_inv in H as [d [Ed _]]. injection Ed as _ ->.
      auto with re.
    + inversion H.
    + apply Matches_Sym_inv in H as [d [Ed H]]. injection Ed as <-. congruence.
  - assert (Hcat : Matches (mkCat (deriv c r1) r2) s
                   <-> exists s1 s2, s = s1 ++ s2
                                     /\ Matches r1 (String c s1)
                                     /\ Matches r2 s2).
    { rewrite mkCat_spec. split.
      - intros H. apply Matches_Cat_inv in H as [s1 [s2 [-> [H1 H2]]]].
        exists s1, s2. rewrite <- IH1. auto.
      - intros [s1 [s2 [-> [H1 H2]]]]. apply IH1 in H1. auto with re. }
    assert (Hsplit : Matches (Cat r1 r2) (String c s)
                     <-> (exists s1 s2, s = s1 ++ s2
                                        /\ Matches r1 (String c s1)
                                        /\ Matches r2 s2)
                         \/ (Matches r1 "" /\ Matches r2 (String c s))).
    { split.
      - intros H. apply Matches_Cat_inv in H as [s1 [s2 [E [H1 H2]]]].
        destruct s1 as [|d s1]; simpl in E.
        + right. subst. auto.
        + injection E as <- ->. left. exists s1, s2. auto.
      - intros [[s1 [s2 [-> [H1 H2]]]] | [H1 H2]].
        + now apply Matches_Cat_cons.
        + now apply Matches_Cat_nil_l. }
    rewrite Hsplit. destruct (nullable r1) eqn:En.
    + rewrite mkAlt_spec. apply nullable_spec in En. split.
      * intros H. apply Matches_Alt_inv in H as [H|H].
        -- left. now apply Hcat.
        -- right. split; [exact En | now apply IH2].
      * intros [H | [_ H]].
        -- apply MAltL. now apply Hcat.
        -- apply MAltR. now apply IH2.
    + rewrite Hcat. split; [auto |].
      intros [H | [H _]]; [exact H |].
      apply nullable_spec in H. congruence.
  - rewrite mkAlt_spec. split; intros H; apply Matches_Alt_inv in H as [H|H].
    + apply MAltL. now apply IH1.
    + apply MAltR. now apply IH2.
    + apply MAltL. now apply IH1.
    + apply MAltR. now apply IH2.
  - rewrite mkCat_spec. split.
    + intros H. apply Matches_Cat_inv in H as [s1 [s2 [-> [H1 H2]]]].
      apply IH in H1.
      change (String c (s1 ++ s2)) with (String c s1 ++ s2)%string.
      auto with re.
    + intros H. apply Matches_Star_cons in H as [s1 [s2 [-> [H1 H2]]]].
      apply IH in H1. auto with re.
Qed.

Lemma fullmatch_spec (r : regex) (s : string) :
  fullmatch r s = true <-> Matches r s.
Proof.
  revert r; induction s as [|c s IH]; intros r; simpl.
  - apply nullable_spec.
  - rewrite IH. apply deriv_spec.
Qed.

Lemma match_here_spec (r : regex) (s : string) :
  match_here r s = true <-> exists m suf, s = m ++ suf /\ Matches r m.
Proof.
  revert r; induction s as [|c s IH]; intros r; simpl.
  - rewrite orb_false_r, nullable_spec. split.
    + intros H. exists "", "". auto.
    + intros [m [suf [E H]]]. symmetry in E.
      apply append_eq_nil in E as [-> _]. exact H.
  - rewrite orb_true_iff, nullable_spec, IH. split.
    + intros [H | [m [suf [-> H]]]].
      * exists "", (String c s). auto.
      * exists (String c m), suf. split; [reflexivity | now apply deriv_spec].
    + intros [[|d m] [suf [E H]]].
      * left. exact H.
      * right. simpl in E. injection E as <- ->.
        exists m, suf. split; [reflexivity | now apply deriv_spec].
Qed.

Lemma search_spec (r : regex) (s : string) :
  search r s = true <-> Occurs r s.
Proof.
  unfold Occurs. induction s as [|c s IH]; cbn [search].
  - rewrite orb_false_r, match_here_spec. split.
    + intros [m [suf [E H]]]. exists "", m, suf. auto.
    + intros [pre [m [suf [E H]]]]. symmetry in E.
      apply append_eq_nil in E as [-> E]. exists m, suf. auto.
  - rewrite orb_true_iff, match_here_spec, IH. split.
    + intros [[m [suf [E H]]] | [pre [m [suf [E H]]]]].
      * exists "", m, suf. auto.
      * exists (String c pre), m, suf. simpl. rewrite E. auto.
    + intros [[|d pre] [m [suf [E H]]]].
      * left. exists m, suf. auto.
      * right. simpl in E. injection E as _ E. exists pre, m, suf. auto.
Qed.

End RegexFacts.

(* ================================================================== *)
(** * The effects of the analysis, in closed form *)

Section EffectFacts.

Variable fs : filesystem.

Lemma bind_Done {A B : Type} (a : A) (t : list event) (f : A -> M B) :
  bind (Done a, t) f = (fst (f a), (t ++ snd (f a))%list).
Proof. unfold bind. now destruct (f a). Qed.

Lemma bind_ret {A B : Type} (a : A) (f : A -> M B) : bind (ret a) f = f a.
Proof. unfold bind, ret. now destruct (f a). Qed.

Lemma analyze_file_eq (path tn ff : string) :
  analyze_file fs path tn ff
  = (Done (file_result fs tn ff path), file_trace fs path).
Proof.
  unfold analyze_file, open_read, file_result, file_trace.
  cbn. now destruct (fs_read fs path).
Qed.

Section Directory.

Variables (dir_path tn ff : string) (exclude : list string).

Let gen_at (p : string) : bool := fst (file_result fs tn ff p).
Let val_at (p : string) : bool := snd (file_result fs tn ff p).
Let kept (p : string) : bool := negb (is_excluded dir_path exclude p).

Lemma scan_files_eq (root : string) (files : list string) (g v : bool) :
  let cands :=
    map (Path.join root)
        (filter (fun file => Str.endswith file ".py") files) in
  scan_files fs dir_path tn ff exclude root files (g, v)
  = (Done (g || existsb gen_at (filter kept cands),
           v || existsb val_at (filter kept cands)),
     flat_map (visit_trace fs dir_path exclude) cands).
Proof.
  unfold scan_files. revert g v.
  induction files as [|file files IH]; intros g v.
  - cbn. now rewrite !orb_false_r.
  - cbn [for_each filter].
    destruct (Str.endswith file ".py") eqn:Epy; [|now rewrite bind_ret, IH].
    cbn [map filter flat_map]. unfold visit_trace at 1.
    assert (Ek : kept (Path.join root file)
                 = negb (is_excluded dir_path exclude (Path.join root file)))
      by reflexivity.
    rewrite !Ek. clear Ek.
    destruct (is_excluded dir_path exclude (Path.join root file)) eqn:Eex;
      cbn [negb].
    + unfold log, emit, ret. rewrite bind_Done. cbn [fst snd app].
      rewrite bind_Done, IH. reflexivity.
    + rewrite analyze_file_eq, bind_Done.
      assert (Eg : gen_at (Path.join root file)
                   = fst (file_result fs tn ff (Path.join root file)))
        by reflexivity.
      assert (Ev : val_at (Path.join root file)
                   = snd (file_result fs tn ff (Path.join root file)))
        by reflexivity.
      cbn [existsb]. rewrite Eg, Ev. clear Eg Ev.
      destruct (file_result fs tn ff (Path.join root file)) as [gen val].
      unfold ret. cbn [fst snd]. rewrite app_nil_r, bind_Done, IH.
      cbn [fst snd]. rewrite !orb_assoc. reflexivity.
Qed.

Lemma walk_loop_eq (triples : list (string * list string * list string))
    (g v : bool) :
  for_each triples (fun '(root, _, files) found =>
    scan_files fs dir_path tn ff exclude root files found) (g, v)
  = (Done (g || existsb gen_at (filter kept (candidate_paths triples)),
           v || existsb val_at (filter kept (candidate_paths triples))),
     flat_map (visit_trace fs dir_path exclude) (candidate_paths triples)).
Proof.
  revert g v.
  induction triples as [|[[root dirs] files] triples IH]; intros g v.
  - cbn. now rewrite !orb_false_r.
  - cbn [for_each]. rewrite scan_files_eq. rewrite bind_Done, IH.
    cbn [fst snd candidate_paths flat_map].
    fold (candidate_paths triples).
    rewrite !filter_app, !existsb_app, flat_map_app, !orb_assoc.
    reflexivity.
Qed.

Lemma analyze_directory_eq :
  analyze_directory fs dir_path tn ff exclude
  = (Done (existsb gen_at (scanned_files fs dir_path exclude),
           existsb val_at (scanned_files fs dir_path exclude)),
     Walk dir_path
     :: flat_map (visit_trace fs dir_path exclude)
                 (candidate_paths (fs_walk fs dir_path))).
Proof.
  unfold analyze_directory, os_walk. cbn [emit ret bind app].
  rewrite walk_loop_eq. reflexivity.
Qed.

End Directory.

(** [main] in closed form, by the four ways it can go. *)
Lemma main_eq (args : arguments) :
  main fs args
  = let p := source_code_path args in
    let tn := token_name args in
    let ff := form_field args in
    if negb (name_matches tn) || negb (name_matches ff)
    then (Exited 1%Z, [invalid_names_event])
    else if fs_isfile fs p
    then (Done tt,
          (IsFile p :: file_trace fs p
           ++ [report_generation (fst (file_result fs tn ff p));
               report_validation (snd (file_result fs tn ff p))])%list)
    else if fs_isdir fs p
    then let r := analyze_directory fs p tn ff (exclude args) in
         (Done tt,
          (IsFile p :: IsDir p :: snd r
           ++ match fst r with
              | Done (g, v) => [report_generation g; report_validation v]
              | Exited _ => []
              end)%list)
    else (Exited 1%Z,
          [IsFile p; IsDir p;
           Log ERROR ("Invalid source code path: " ++ p)]).
Proof.
  unfold main. cbv zeta.
  destruct (negb (name_matches (token_name args))
            || negb (name_matches (form_field args))); [reflexivity|].
  unfold os_path_isfile, os_path_isdir. cbn [emit ret bind app].
  destruct (fs_isfile fs (source_code_path args)).
  - rewrite analyze_file_eq.
    destruct (file_result fs (token_name args) (form_field args)
                          (source_code_path args)) as [g v].
    cbn. destruct g, v; cbn; rewrite <- ?app_assoc; reflexivity.
  - cbn [bind app]. destruct (fs_isdir fs (source_code_path args)).
    + rewrite analyze_directory_eq. cbn -[existsb file_result].
      match goal with
      | |- context [report_generation ?g] => destruct g
      end;
      match goal with
      | |- context [report_validation ?v] => destruct v
      end; cbn; rewrite <- ?app_assoc; reflexivity.
    + reflexivity.
Qed.

End EffectFacts.

(* ================================================================== *)
(** * Facts about the pattern loop, the names and the exclusion test *)

Section LoopFacts.

Lemma search_patterns_true (patterns : list regex) (code : string) :
  search_patterns patterns code = true
  <-> exists p, FirstHit patterns code p.
Proof.
  induction patterns as [|q rest IH]; cbn [search_patterns].
  - split; [discriminate |].
    intros [p [before [after [E _]]]]. now destruct before.
  - destruct (search q code) eqn:Eq.
    + split; [intros _ | reflexivity].
      exists q, [], rest. repeat split; [constructor | now apply search_spec].
    + rewrite IH. split.
      * intros [p [before [after [-> [Hb Hp]]]]].
        exists p, (q :: before), after. repeat split; [| exact Hp].
        constructor; [| exact Hb].
        intros Ho. apply search_spec in Ho. congruence.
      * intros [p [[|q' before] [after [E [Hb Hp]]]]].
        -- injection E as -> _. apply search_spec in Hp. congruence.
        -- injection E as _ ->. inversion Hb; subst.
           exists p, before, after. auto.
Qed.

Lemma search_patterns_false (patterns : list regex) (code : string) :
  search_patterns patterns code = false
  <-> Forall (fun q => ~ Occurs q code) patterns.
Proof.
  induction patterns as [|q rest IH]; cbn [search_patterns].
  - split; [constructor | reflexivity].
  - destruct (search q code) eqn:Eq.
    + split; [discriminate |]. intros H. inversion H; subst.
      apply search_spec in Eq. contradiction.
    + rewrite IH. split.
      * intros H. constructor; [| exact H].
        intros Ho. apply search_spec in Ho. congruence.
      * intros H. now inversion H.
Qed.

Lemma fullmatch_Empty (s : string) : fullmatch Empty s = false.
Proof. induction s; simpl; auto. Qed.

Lemma fullmatch_word_chars (s : string) :
  fullmatch (Star (Sym word_char)) s = all_word_chars s.
Proof.
  induction s as [|c s IH]; [reflexivity |].
  cbn [fullmatch deriv all_word_chars].
  destruct (charset_mem word_char c); cbn [mkCat andb].
  - exact IH.
  - apply fullmatch_Empty.
Qed.

Lemma fullmatch_identifier (s : string) :
  fullmatch identifier s = is_identifier s.
Proof.
  destruct s as [|c s]; [reflexivity |].
  unfold identifier, is_identifier, is_letter_or_underscore.
  cbn [fullmatch deriv nullable].
  destruct (charset_mem _ c); cbn [mkCat andb].
  - apply fullmatch_word_chars.
  - apply fullmatch_Empty.
Qed.

(** The names [main] lets through: the identifiers, and the identifiers
    followed by one newline. *)
Lemma name_matches_spec (name : string) :
  name_matches name = true
  <-> is_identifier name = true
      \/ exists w, name = w ++ String newline "" /\ is_identifier w = true.
Proof.
  unfold name_matches, match_anchored.
  rewrite orb_true_iff, fullmatch_identifier, fullmatch_spec.
  apply or_iff_compat_l. split.
  - intros H. apply Matches_Cat_inv in H as [w [s2 [-> [Hw H2]]]].
    apply Matches_Sym_inv in H2 as [c [-> Hc]].
    cbn in Hc. apply Ascii.eqb_eq in Hc. subst c.
    exists w. split; [reflexivity |].
    rewrite <- fullmatch_identifier. now apply fullmatch_spec.
  - intros [w [-> Hw]]. apply MCat.
    + apply fullmatch_spec. now rewrite fullmatch_identifier.
    + constructor. reflexivity.
Qed.

Lemma exclusion_hits_spec (dir_path file_path ex : string) :
  exclusion_hits dir_path file_path ex = true
  <-> Path.normpath file_path = Path.normpath (Path.join dir_path ex)
      \/ Substring (Path.normpath (Path.join dir_path ex))
                   (Path.normpath file_path).
Proof.
  unfold exclusion_hits, Substring.
  rewrite orb_true_iff, String.eqb_eq, contains_spec.
  split; (intros [H|H]; [left; now symmetry | now right]).
Qed.

Lemma is_excluded_spec (dir_path : string) (exclude : list string)
    (file_path : string) :
  is_excluded dir_path exclude file_path = true
  <-> exists ex,
        In ex exclude
        /\ (Path.normpath file_path = Path.normpath (Path.join dir_path ex)
            \/ Substring (Path.normpath (Path.join dir_path ex))
                         (Path.normpath file_path)).
Proof.
  unfold is_excluded. rewrite existsb_exists.
  split; intros [ex [Hin H]]; exists ex; split; auto;
    now apply exclusion_hits_spec.
Qed.

(** A longer exclusion list excludes at least as much. *)
Lemma is_excluded_incl (dir_path : string) (exclude exclude' : list string)
    (file_path : string) :
  incl exclude exclude' ->
  is_excluded dir_path exclude file_path = true ->
  is_excluded dir_path exclude' file_path = true.
Proof.
  unfold is_excluded. rewrite !existsb_exists.
  intros Hincl [ex [Hin H]]. exists ex. auto.
Qed.

Lemma existsb_filter_incl {A : Type} (f keep keep' : A -> bool) (l : list A) :
  (forall x, keep' x = true -> keep x = true) ->
  existsb f (filter keep' l) = true -> existsb f (filter keep l) = true.
Proof.
  intros Hk. rewrite !existsb_exists.
  intros [x [Hin Hf]]. exists x. split; [| exact Hf].
  apply filter_In in Hin as [Hin Hx]. apply filter_In. auto.
Qed.

End LoopFacts.

(* ================================================================== *)
(** * Facts about the trace of a directory scan *)

Section TraceFacts.

Variable fs : filesystem.

Lemma Open_in_file_trace (p q : string) :
  In (Open p) (file_trace fs q) <-> q = p.
Proof.
  unfold file_trace. split.
  - destruct (fs_read fs q); cbn; intros H;
      repeat match type of H with _ \/ _ => destruct H as [H|H] end;
      try discriminate; try contradiction; now injection H.
  - intros ->. destruct (fs_read fs p); cbn; auto.
Qed.

Lemma skip_event_inj (p q : string) : skip_event q = skip_event p -> q = p.
Proof. unfold skip_event. cbn. intros H. now injection H. Qed.

Lemma skip_in_file_trace (p q : string) : ~ In (skip_event p) (file_trace fs q).
Proof.
  unfold file_trace, skip_event.
  destruct (fs_read fs q); cbn; intros H;
    repeat match type of H with _ \/ _ => destruct H as [H|H] end;
    try discriminate; contradiction.
Qed.

Variables (dir_path tn ff : string) (exclude : list string).

Lemma Open_in_scan (p : string) :
  In (Open p) (trace (analyze_directory fs dir_path tn ff exclude))
  <-> In p (scanned_files fs dir_path exclude).
Proof.
  rewrite analyze_directory_eq. unfold trace, scanned_files. cbn [snd].
  rewrite filter_In. split.
  - intros [H|H]; [discriminate |].
    apply in_flat_map in H as [q [Hq H]]. unfold visit_trace in H.
    destruct (is_excluded dir_path exclude q) eqn:E.
    + destruct H as [H|[]]. discriminate.
    + apply Open_in_file_trace in H. subst q. now rewrite E.
  - intros [Hin Hk]. right. apply in_flat_map. exists p. split; [exact Hin |].
    unfold visit_trace. destruct (is_excluded dir_path exclude p).
    + discriminate.
    + now apply Open_in_file_trace.
Qed.

Lemma skip_in_scan (p : string) :
  In (skip_event p) (trace (analyze_directory fs dir_path tn ff exclude))
  <-> In p (candidate_paths (fs_walk fs dir_path))
      /\ is_excluded dir_path exclude p = true.
Proof.
  rewrite analyze_directory_eq. unfold trace. cbn [snd]. split.
  - intros [H|H]; [discriminate |].
    apply in_flat_map in H as [q [Hq H]]. unfold visit_trace in H.
    destruct (is_excluded dir_path exclude q) eqn:E.
    + destruct H as [H|[]]. apply skip_event_inj in H. subst q. auto.
    + now apply skip_in_file_trace in H.
  - intros [Hin Hx]. right. apply in_flat_map. exists p. split; [exact Hin |].
    unfold visit_trace. rewrite Hx. now left.
Qed.

End TraceFacts.

(* ================================================================== *)
(** * The directory result *)

Section DirectoryResult.

Variable fs : filesystem.
Variables (dir_path tn ff : string).

Lemma analyze_file_value (p : string) (r : bool * bool) :
  value (analyze_file fs p tn ff) = Done r <-> file_result fs tn ff p = r.
Proof.
  rewrite analyze_file_eq. unfold value. cbn [fst].
  split; [intros H; now injection H | intros ->; reflexivity].
Qed.

Lemma per_file_results (paths : list string) :
  Forall2 (fun p r => value (analyze_file fs p tn ff) = Done r)
          paths (map (file_result fs tn ff) paths).
Proof.
  induction paths as [|p paths IH]; constructor; [| exact IH].
  now apply analyze_file_value.
Qed.

Lemma existsb_map_fun {A B : Type} (f : B -> bool) (g : A -> B) (l : list A) :
  existsb f (map g l) = existsb (fun x => f (g x)) l.
Proof. induction l as [|x l IH]; cbn; [reflexivity | now rewrite IH]. Qed.

Lemma analyze_directory_value (exclude : list string) :
  value (analyze_directory fs dir_path tn ff exclude)
  = Done (existsb (fun p => fst (file_result fs tn ff p))
                  (scanned_files fs dir_path exclude),
          existsb (fun p => snd (file_result fs tn ff p))
                  (scanned_files fs dir_path exclude)).
Proof. now rewrite analyze_directory_eq. Qed.

(** C1. The result of [analyze_directory] is, in each of its two
    components independently, the disjunction of the results that
    [analyze_file] returns on the scanned files (the [.py] files of the
    walk that are not excluded).  In particular, when one scanned file
    yields (true, false) and another yields (false, true), the directory
    yields (true, true). *)
Theorem C1_directory_result_is_disjunction (exclude : list string) :
  (exists results : list (bool * bool),
      Forall2 (fun p r => value (analyze_file fs p tn ff) = Done r)
              (scanned_files fs dir_path exclude) results
      /\ value (analyze_directory fs dir_path tn ff exclude)
         = Done (existsb fst results, existsb snd results))
  /\ (forall p1 p2 : string,
        In p1 (scanned_files fs dir_path exclude) ->
        In p2 (scanned_files fs dir_path exclude) ->
        value (analyze_file fs p1 tn ff) = Done (true, false) ->
        value (analyze_file fs p2 tn ff) = Done (false, true) ->
        value (analyze_directory fs dir_path tn ff exclude)
        = Done (true, true)).
Proof.
  split.
  - exists (map (file_result fs tn ff) (scanned_files fs dir_path exclude)).
    split; [apply per_file_results |].
    rewrite analyze_directory_value, !existsb_map_fun. reflexivity.
  - intros p1 p2 H1 H2 R1 R2.
    apply analyze_file_value in R1. apply analyze_file_value in R2.
    rewrite analyze_directory_value. f_equal. f_equal.
    + apply existsb_exists. exists p1. now rewrite R1.
    + apply existsb_exists. exists p2. now rewrite R2.
Qed.

End DirectoryResult.

Lemma C1_witness :
  In "pair/gen.py" (scanned_files project_fs "pair" [])
  /\ In "pair/val.py" (scanned_files project_fs "pair" [])
  /\ value (analyze_file project_fs "pair/gen.py" "csrf_token" "csrf_token")
     = Done (true, false)
  /\ value (analyze_file project_fs "pair/val.py" "csrf_token" "csrf_token")
     = Done (false, true)
  /\ value (analyze_directory project_fs "pair" "csrf_token" "csrf_token" [])
     = Done (true, true).
Proof.
  assert (H1 : In "pair/gen.py" (scanned_files project_fs "pair" []))
    by (vm_compute; auto).
  assert (H2 : In "pair/val.py" (scanned_files project_fs "pair" []))
    by (vm_compute; auto).
  assert (R1 : value (analyze_file project_fs "pair/gen.py" "csrf_token" "csrf_token")
               = Done (true, false)) by (vm_compute; reflexivity).
  assert (R2 : value (analyze_file project_fs "pair/val.py" "csrf_token" "csrf_token")
               = Done (false, true)) by (vm_compute; reflexivity).
  refine (conj H1 (conj H2 (conj R1 (conj R2 _)))).
  exact (proj2 (C1_directory_result_is_disjunction
                  project_fs "pair" "csrf_token" "csrf_token" [])
               "pair/gen.py" "pair/val.py" H1 H2 R1 R2).
Defined.

(* ================================================================== *)
(** * The pattern predicates *)

Lemma Forall_not_occurs (patterns : list regex) (code : string) :
  forallb (fun q => negb (search q code)) patterns = true ->
  Forall (fun q => ~ Occurs q code) patterns.
Proof.
  induction patterns as [|q rest IH]; cbn [forallb]; [constructor |].
  intros H. apply andb_true_iff in H as [Hq Hr]. constructor; [| now apply IH].
  intros Ho. apply search_spec in Ho. rewrite Ho in Hq. discriminate.
Qed.

(** A hit computed: the patterns before the one at place [n] do not occur
    and that one does. *)
Lemma first_hit_at (patterns : list regex) (code : string) (n : nat) :
  forallb (fun q => negb (search q code)) (firstn n patterns) = true ->
  search (nth n patterns Empty) code = true ->
  n < List.length patterns ->
  FirstHit patterns code (nth n patterns Empty).
Proof.
  intros Hb Hp Hn. exists (firstn n patterns), (skipn (S n) patterns).
  split; [| split].
  - rewrite <- (firstn_skipn n patterns) at 1. f_equal.
    clear Hb Hp. revert n Hn.
    induction patterns as [|q rest IH]; intros n Hn; [inversion Hn |].
    destruct n as [|n]; [reflexivity |].
    cbn [skipn nth]. apply IH. cbn [List.length] in Hn. lia.
  - now apply Forall_not_occurs.
  - now apply search_spec.
Qed.

(** C2. For names that pass the check of [main], each of the two
    predicates goes through its list of four patterns in order and answers
    true at the first pattern of which some substring of the whole text is
    a word, and false exactly when no pattern has such a substring.  The
    search compares characters exactly (an upper-case spelling of an idiom
    is not found) and is not confined to a line (an idiom broken over
    lines at its white space is found).  The instances fix the order: a
    [uuid.uuid4] assignment is a hit of the fourth generation pattern
    after three misses, a session comparison a hit of the third validation
    pattern after two misses. *)
Theorem C2_predicates_first_match :
  (forall code tn ff : string,
      name_matches tn = true ->
      name_matches ff = true ->
      (is_token_generation_present code tn = true
       <-> exists p, FirstHit (generation_patterns tn) code p)
      /\ (is_token_generation_present code tn = false
          <-> Forall (fun q => ~ Occurs q code) (generation_patterns tn))
      /\ (is_token_validation_present code tn ff = true
          <-> exists p, FirstHit (validation_patterns tn ff) code p)
      /\ (is_token_validation_present code tn ff = false
          <-> Forall (fun q => ~ Occurs q code) (validation_patterns tn ff)))
  /\ is_token_generation_present "CSRF_TOKEN = OS.URANDOM(24)" "csrf_token"
     = false
  /\ is_token_generation_present
       ("csrf_token" ++ String newline "=" ++ String newline "os.urandom(24)")
       "csrf_token"
     = true
  /\ FirstHit (generation_patterns "csrf_token") "csrf_token = uuid.uuid4()"
              (nth 3 (generation_patterns "csrf_token") Empty)
  /\ is_token_validation_present
       "if request.form['csrf_token'] != csrf_token:" "csrf_token" "csrf_token"
     = true
  /\ is_token_validation_present
       "IF REQUEST.FORM['CSRF_TOKEN'] != CSRF_TOKEN:" "csrf_token" "csrf_token"
     = false
  /\ is_token_validation_present
       ("if" ++ String newline "request.POST['csrf_token']   !="
             ++ String newline "csrf_token")
       "csrf_token" "csrf_token"
     = true
  /\ is_token_validation_present "request.form['csrf_token'] != csrf_token"
       "csrf_token" "csrf_token"
     = false
  /\ FirstHit (validation_patterns "csrf_token" "csrf_token")
              "if session['csrf_token'] != request.form['csrf_token']:"
              (nth 2 (validation_patterns "csrf_token" "csrf_token") Empty).
Proof.
  split.
  - intros code tn ff _ _.
    unfold is_token_generation_present, is_token_validation_present.
    exact (conj (search_patterns_true _ _)
          (conj (search_patterns_false _ _)
          (conj (search_patterns_true _ _) (search_patterns_false _ _)))).
  - split; [vm_compute; reflexivity |].
    split; [vm_compute; reflexivity |].
    split; [apply first_hit_at; [vm_compute; reflexivity .. | cbn; lia] |].
    split; [vm_compute; reflexivity |].
    split; [vm_compute; reflexivity |].
    split; [vm_compute; reflexivity |].
    split; [vm_compute; reflexivity |].
    apply first_hit_at; [vm_compute; reflexivity .. | cbn; lia].
Qed.

Lemma C2_witness :
  name_matches "csrf_token" = true
  /\ (is_token_validation_present subscript_validation_text
        "csrf_token" "csrf_token" = true
      <-> exists p,
            FirstHit (validation_patterns "csrf_token" "csrf_token")
                     subscript_validation_text p).
Proof.
  split; [reflexivity |].
  exact (proj1 (proj2 (proj2
           (proj1 C2_predicates_first_match subscript_validation_text
                  "csrf_token" "csrf_token" eq_refl eq_refl)))).
Defined.

(* ================================================================== *)
(** * The exclusion test *)

(** C3, as stated, fails: under the scan root [proj] the fragment [test]
    does not exclude [proj/sub/test_views.py], whose normalised path
    contains [test]; the file is opened and analysed. *)
Lemma C3_counterexample :
  Substring "test" (Path.normpath "proj/sub/test_views.py")
  /\ In "proj/sub/test_views.py" (candidate_paths (fs_walk project_fs "proj"))
  /\ is_excluded "proj" ["test"] "proj/sub/test_views.py" = false
  /\ In (Open "proj/sub/test_views.py")
        (trace (analyze_directory project_fs "proj" "csrf_token" "csrf_token"
                                  ["test"])).
Proof.
  split; [exists "proj/sub/", "_views.py"; reflexivity |].
  split; [vm_compute; auto |].
  split; [vm_compute; reflexivity |].
  vm_compute. auto 10.
Qed.

(** C3, amended.  A candidate of the directory loop is skipped (logged as
    skipped and never opened) if and only if its normalised path equals, or
    contains as a substring, the normalised join of the scan root with some
    exclusion entry.  An entry is thus read relative to the scan root: what
    a fragment excludes depends on the root. *)
Theorem C3_skipped_iff_root_joined_entry_matches
    (fs : filesystem) (dir_path tn ff : string) (exclude : list string)
    (p : string) :
  In p (candidate_paths (fs_walk fs dir_path)) ->
  let t := trace (analyze_directory fs dir_path tn ff exclude) in
  let hit :=
    exists ex,
      In ex exclude
      /\ (Path.normpath p = Path.normpath (Path.join dir_path ex)
          \/ Substring (Path.normpath (Path.join dir_path ex))
                       (Path.normpath p)) in
  ((In (skip_event p) t /\ ~ In (Open p) t) <-> hit)
  /\ (In (Open p) t <-> ~ hit).
Proof.
  intros Hc t hit. subst t hit. cbv zeta.
  rewrite <- is_excluded_spec, skip_in_scan, Open_in_scan.
  unfold scanned_files. rewrite filter_In.
  destruct (is_excluded dir_path exclude p); cbn [negb]; split; split.
  - intros _. reflexivity.
  - intros _. split; [auto |]. intros [_ H]. discriminate.
  - intros [_ H]. discriminate.
  - intros H. now contradiction H.
  - intros [[_ H] _]. discriminate.
  - discriminate.
  - intros _. discriminate.
  - intros _. auto.
Qed.

Lemma C3_witness :
  In "proj/test_app.py" (candidate_paths (fs_walk project_fs "proj"))
  /\ In (skip_event "proj/test_app.py")
        (trace (analyze_directory project_fs "proj" "csrf_token" "csrf_token"
                                  ["test"]))
  /\ ~ In (Open "proj/test_app.py")
         (trace (analyze_directory project_fs "proj" "csrf_token" "csrf_token"
                                   ["test"])).
Proof.
  assert (Hc : In "proj/test_app.py" (candidate_paths (fs_walk project_fs "proj")))
    by (vm_compute; auto).
  refine (conj Hc _).
  apply (proj1 (C3_skipped_iff_root_joined_entry_matches
                  project_fs "proj" "csrf_token" "csrf_token" ["test"]
                  "proj/test_app.py" Hc)).
  exists "test". split; [now left |].
  right. exists "", "_app.py". reflexivity.
Defined.

(* ================================================================== *)
(** * Names and exit codes *)

Section MainFacts.

Variable fs : filesystem.

(** Names that fail the check stop the run before the file system is
    touched. *)
Lemma main_rejects_unmatched_names (args : arguments) :
  name_matches (token_name args) = false
  \/ name_matches (form_field args) = false ->
  main fs args = (Exited 1%Z, [invalid_names_event]).
Proof.
  intros H. rewrite main_eq. cbv zeta.
  destruct H as [-> | ->]; cbn [negb orb]; [| rewrite orb_true_r];
    reflexivity.
Qed.

Lemma main_exit_code (args : arguments) :
  exit_code (main fs args)
  = if name_matches (token_name args) && name_matches (form_field args)
       && (fs_isfile fs (source_code_path args)
           || fs_isdir fs (source_code_path args))
    then 0%Z else 1%Z.
Proof.
  rewrite main_eq. cbv zeta.
  destruct (name_matches (token_name args)),
           (name_matches (form_field args)); cbn [negb orb andb];
    try reflexivity.
  destruct (fs_isfile fs (source_code_path args)); [reflexivity |].
  destruct (fs_isdir fs (source_code_path args)); reflexivity.
Qed.


End MainFacts.

(** A letter or an underscore is a word character. *)
Lemma letter_is_word_char (c : ascii) :
  is_letter_or_underscore c = true -> charset_mem word_char c = true.
Proof.
  destruct c as [[] [] [] [] [] [] [] []]; vm_compute; auto.
Qed.

(** A name that passed the check of [main] consists of word characters,
    with at most a newline after them: spliced into a pattern it holds no
    metacharacter and is matched letter by letter. *)
Lemma accepted_names_are_literal (name : string) :
  name_matches name = true ->
  all_word_chars name = true
  \/ exists w, name = w ++ String newline "" /\ all_word_chars w = true.
Proof.
  assert (Hid : forall w, is_identifier w = true -> all_word_chars w = true).
  { intros [|c w]; [discriminate |]. cbn [is_identifier all_word_chars].
    rewrite !andb_true_iff. intros [Hc Hw]. split; [| exact Hw].
    now apply letter_is_word_char. }
  intros H. apply name_matches_spec in H as [H | [w [-> H]]].
  - left. now apply Hid.
  - right. exists w. split; [reflexivity | now apply Hid].
Qed.

(** C4. The check of the names lets through an identifier followed by a
    newline, which is not of the identifier shape: the run goes on to walk
    the directory and open its files, and ends with exit code 0. *)
Theorem C4_name_with_trailing_newline_is_scanned :
  let name := "csrf_token" ++ String newline "" in
  let args := {| source_code_path := "proj"; token_name := name;
                 form_field := "csrf_token"; exclude := [] |} in
  is_identifier name = false
  /\ name_matches name = true
  /\ exit_code (main project_fs args) = 0%Z
  /\ existsb is_io (trace (main project_fs args)) = true
  /\ In (Open "proj/gen.py") (trace (main project_fs args)).
Proof.
  cbv zeta. repeat apply conj; try (vm_compute; reflexivity).
  vm_compute. auto 10.
Qed.



(** When both names are identifiers, the exit code is decided by the path
    alone. *)
Lemma exit_code_of_identifiers (fs : filesystem) (args : arguments) :
  is_identifier (token_name args) = true ->
  is_identifier (form_field args) = true ->
  exit_code (main fs args)
  = if fs_isfile fs (source_code_path args)
       || fs_isdir fs (source_code_path args)
    then 0%Z else 1%Z.
Proof.
  intros Ht Hf. rewrite main_exit_code.
  rewrite (proj2 (name_matches_spec _) (or_introl Ht)).
  rewrite (proj2 (name_matches_spec _) (or_introl Hf)).
  reflexivity.
Qed.

(** C5. The exit codes do not follow identifier validation at one kind of
    name.  The token name made of [csrf_token] and a newline is not of the
    identifier shape, and the path [proj] is an existing directory; the
    claim asks for exit code 1, but the run completes normally and exits
    with 0.  On two names of the identifier shape the exit code is as the
    claim says: 1 exactly when the path is neither a file nor a
    directory, 0 otherwise. *)
Theorem C5_exit_0_for_a_name_that_is_no_identifier :
  let name := "csrf_token" ++ String newline "" in
  let args := {| source_code_path := "proj"; token_name := name;
                 form_field := "csrf_token"; exclude := [] |} in
  is_identifier name = false
  /\ fs_isdir project_fs "proj" = true
  /\ value (main project_fs args) = Done tt
  /\ exit_code (main project_fs args) = 0%Z
  /\ exit_code (main project_fs args) <> 1%Z
  /\ exit_code (main project_fs
                     {| source_code_path := "proj"; token_name := "csrf_token";
                        form_field := "csrf_token"; exclude := [] |}) = 0%Z
  /\ exit_code (main project_fs
                     {| source_code_path := "nowhere"; token_name := "csrf_token";
                        form_field := "csrf_token"; exclude := [] |}) = 1%Z
  /\ exit_code (main project_fs
                     {| source_code_path := "proj"; token_name := "csrf token";
                        form_field := "csrf_token"; exclude := [] |}) = 1%Z.
Proof.
  cbv zeta. repeat apply conj; try (vm_compute; reflexivity).
  vm_compute. discriminate.
Qed.

(* ================================================================== *)
(** * Read failures *)

Section ReadFailure.

Variable fs : filesystem.

Lemma unreadable_result (p tn ff : string) :
  readable fs p = false -> file_result fs tn ff p = (false, false).
Proof.
  unfold readable, file_result.
  destruct (fs_read fs p); [discriminate | reflexivity | reflexivity].
Qed.

Lemma unreadable_trace (p : string) :
  readable fs p = false ->
  exists msg, file_trace fs p = [Open p; Log ERROR msg].
Proof.
  unfold readable, file_trace.
  destruct (fs_read fs p); [discriminate | |]; intros _; eexists; reflexivity.
Qed.

Lemma existsb_filter_implied {A : Type} (f keep : A -> bool) (l : list A) :
  (forall x, f x = true -> keep x = true) ->
  existsb f (filter keep l) = existsb f l.
Proof.
  intros H. induction l as [|x l IH]; [reflexivity |].
  cbn [filter existsb]. destruct (keep x) eqn:Ek; cbn [existsb].
  - now rewrite IH.
  - destruct (f x) eqn:Ef; [| exact IH].
    apply H in Ef. congruence.
Qed.

(** C6. When the read of a file fails, [analyze_file] logs one error and
    returns (false, false).  A directory scan goes on: it opens every
    scanned file, returns normally, and its result is the disjunction
    over the scanned files that could be read.  A run on an existing
    file or directory with accepted names ends with exit code 0 whatever
    the reads give. *)
Theorem C6_read_failure_is_not_fatal :
  (forall p tn ff : string,
      readable fs p = false ->
      value (analyze_file fs p tn ff) = Done (false, false)
      /\ exists msg, trace (analyze_file fs p tn ff) = [Open p; Log ERROR msg])
  /\ (forall (dir_path tn ff : string) (exclude : list string),
        value (analyze_directory fs dir_path tn ff exclude)
        = Done (existsb (fun p => fst (file_result fs tn ff p))
                        (filter (readable fs)
                                (scanned_files fs dir_path exclude)),
                existsb (fun p => snd (file_result fs tn ff p))
                        (filter (readable fs)
                                (scanned_files fs dir_path exclude)))
        /\ forall p, In p (scanned_files fs dir_path exclude) ->
                     In (Open p)
                        (trace (analyze_directory fs dir_path tn ff exclude)))
  /\ (forall args : arguments,
        name_matches (token_name args) = true ->
        name_matches (form_field args) = true ->
        fs_isfile fs (source_code_path args)
        || fs_isdir fs (source_code_path args) = true ->
        exit_code (main fs args) = 0%Z).
Proof.
  split; [| split].
  - intros p tn ff Hr. rewrite analyze_file_eq. unfold value, trace.
    cbn [fst snd]. rewrite (unreadable_result _ _ _ Hr).
    split; [reflexivity | now apply unreadable_trace].
  - intros dir_path tn ff exclude. split.
    + rewrite analyze_directory_value.
      rewrite !existsb_filter_implied; [reflexivity | |];
        intros x Hx; destruct (readable fs x) eqn:Er; auto;
        rewrite (unreadable_result _ tn ff Er) in Hx; discriminate.
    + intros p Hp. now apply Open_in_scan.
  - intros args Ht Hf Hp. rewrite main_exit_code, Ht, Hf, Hp. reflexivity.
Qed.

End ReadFailure.

Lemma C6_witness :
  readable project_fs "broken/a.py" = false
  /\ value (analyze_file project_fs "broken/a.py" "csrf_token" "csrf_token")
     = Done (false, false)
  /\ value (analyze_directory project_fs "broken" "csrf_token" "csrf_token" [])
     = Done (true, false)
  /\ exit_code (main project_fs
                     {| source_code_path := "broken"; token_name := "csrf_token";
                        form_field := "csrf_token"; exclude := [] |}) = 0%Z.
Proof.
  assert (Hr : readable project_fs "broken/a.py" = false) by reflexivity.
  refine (conj Hr (conj _ (conj _ _))).
  - exact (proj1 (proj1 (C6_read_failure_is_not_fatal project_fs)
                        "broken/a.py" "csrf_token" "csrf_token" Hr)).
  - exact (proj1 (proj1 (proj2 (C6_read_failure_is_not_fatal project_fs))
                        "broken" "csrf_token" "csrf_token" [])).
  - apply (proj2 (proj2 (C6_read_failure_is_not_fatal project_fs)));
      reflexivity.
Defined.

(* ================================================================== *)
(** * Validation idioms *)

Section ValidationShapes.

Local Hint Constructors Matches : re.

Lemma Matches_Lit (s : string) : Matches (Lit s) s.
Proof.
  induction s as [|c s IH]; cbn [Lit]; [constructor |].
  change (String c s) with (String c "" ++ s)%string.
  constructor; [| exact IH]. constructor. cbn. apply Ascii.eqb_refl.
Qed.

Lemma Matches_chr (c : ascii) : Matches (chr c) (String c "").
Proof. constructor. cbn. apply Ascii.eqb_refl. Qed.

Lemma Matches_Star_one (r : regex) (s : string) :
  Matches r s -> Matches (Star r) s.
Proof.
  intros H. rewrite <- (append_nil_r s). auto with re.
Qed.

Lemma Matches_Seq_cons (r : regex) (rs : list regex) (s1 s2 : string) :
  Matches r s1 -> Matches (Seq rs) s2 -> Matches (Seq (r :: rs)) (s1 ++ s2).
Proof. intros H1 H2. cbn [Seq]. auto with re. Qed.

(** A comparison of the subscripted form field with the token name is
    found, wherever it stands in the text. *)
Lemma subscript_shape_found (post double : bool) (tn ff pre suf : string) :
  is_token_validation_present
    (pre ++ "if request." ++ obj_name post ++ "["
         ++ String (quote_char double) ff
         ++ String (quote_char double) "] != " ++ tn ++ suf)
    tn ff
  = true.
Proof.
  unfold is_token_validation_present. apply search_patterns_true.
  eexists. exists []. eexists. split; [reflexivity |].
  split; [constructor |].
  exists pre,
    ("if" ++ " " ++ "request" ++ "." ++ obj_name post ++ "" ++ "["
     ++ String (quote_char double) "" ++ ff
     ++ String (quote_char double) "" ++ "]" ++ " " ++ "!=" ++ " "
     ++ tn ++ "" ++ "")%string,
    suf.
  split.
  - f_equal. cbn [append].
    repeat (rewrite ?append_assoc; cbn [append]). reflexivity.
  - repeat apply Matches_Seq_cons; try apply Matches_Lit;
      try apply Matches_chr; try (constructor; fail).
    + unfold spaces1, Plus.
      change " "%string with (" " ++ "")%string.
      constructor; [now constructor | constructor].
    + destruct post; [apply MAltR | apply MAltL]; apply Matches_Lit.
    + destruct double; now constructor.
    + destruct double; now constructor.
    + apply Matches_Star_one. now constructor.
    + apply Matches_Star_one. now constructor.
Qed.

End ValidationShapes.

(** C7. For names that pass the check of [main], the subscript shape of
    the comparison is reported as validation, wherever it stands and
    whatever else the file holds.  The call shape is not: a file whose
    text is the comparison of [request.form.get('csrf_token')] (or of
    [request.POST.get]) with the token is reported as (false, false).  The
    second and fourth patterns ask for a closing square bracket after the
    quoted field name, so they answer only to the unbalanced spelling of
    the call. *)
Theorem C7_call_shape_is_missed :
  (forall (post double : bool) (tn ff pre suf : string),
      name_matches tn = true ->
      name_matches ff = true ->
      is_token_validation_present
        (pre ++ "if request." ++ obj_name post ++ "["
             ++ String (quote_char double) ff
             ++ String (quote_char double) "] != " ++ tn ++ suf)
        tn ff
      = true)
  /\ fs_read project_fs "call.py"
     = ReadOk "if request.form.get('csrf_token') != csrf_token:"
  /\ analyze_file project_fs "call.py" "csrf_token" "csrf_token"
     = (Done (false, false), [Open "call.py"])
  /\ is_token_validation_present
       "if request.POST.get('csrf_token') != csrf_token:"
       "csrf_token" "csrf_token" = false
  /\ is_token_validation_present
       "if session['csrf_token'] != request.form.get('csrf_token'):"
       "csrf_token" "csrf_token" = false
  /\ is_token_validation_present
       "if request.form.get('csrf_token'] != csrf_token:"
       "csrf_token" "csrf_token" = true.
Proof.
  split; [intros post double tn ff pre suf _ _; apply subscript_shape_found |].
  repeat apply conj; vm_compute; reflexivity.
Qed.

Lemma C7_witness :
  name_matches "token" = true
  /\ name_matches "csrf" = true
  /\ is_token_validation_present
       ("    " ++ "if request." ++ obj_name true ++ "["
               ++ String (quote_char false) "csrf"
               ++ String (quote_char false) "] != " ++ "token" ++ ":")
       "token" "csrf"
     = true.
Proof.
  refine (conj eq_refl (conj eq_refl _)).
  exact (proj1 C7_call_shape_is_missed true false "token" "csrf" "    " ":"
               eq_refl eq_refl).
Defined.

(* ================================================================== *)
(** * Directories without Python files, single files, longer exclusions *)

Lemma no_candidates (triples : list (string * list string * list string)) :
  (forall root dirs files file,
      In (root, dirs, files) triples -> In file files ->
      Str.endswith file ".py" = false) ->
  candidate_paths triples = [].
Proof.
  induction triples as [|[[root dirs] files] triples IH]; intros H;
    [reflexivity |].
  cbn [candidate_paths flat_map]. fold (candidate_paths triples).
  rewrite IH by (intros r d fl f Hin; apply (H r d fl f); now right).
  assert (E : filter (fun file => Str.endswith file ".py") files = []).
  { assert (Hf : forall f, In f files -> Str.endswith f ".py" = false)
      by (intros f Hin; apply (H root dirs files); [now left | exact Hin]).
    clear H IH. induction files as [|f files IHf]; [reflexivity |].
    cbn [filter]. rewrite (Hf f) by now left.
    apply IHf. intros g Hg. apply Hf. now right. }
  rewrite E. reflexivity.
Qed.

(** C8. When the walk of the directory lists no file whose name ends in
    [.py] (an empty directory lists no file at all), [analyze_directory]
    returns (false, false), and it opens no file. *)
Theorem C8_no_python_file_no_finding
    (fs : filesystem) (dir_path tn ff : string) (exclude : list string) :
  (forall root dirs files file,
      In (root, dirs, files) (fs_walk fs dir_path) -> In file files ->
      Str.endswith file ".py" = false) ->
  analyze_directory fs dir_path tn ff exclude
  = (Done (false, false), [Walk dir_path]).
Proof.
  intros H. rewrite analyze_directory_eq. unfold scanned_files.
  rewrite (no_candidates _ H). reflexivity.
Qed.

Lemma C8_witness :
  analyze_directory project_fs "empty" "csrf_token" "csrf_token" []
  = (Done (false, false), [Walk "empty"])
  /\ analyze_directory project_fs "docs" "csrf_token" "csrf_token" []
     = (Done (false, false), [Walk "docs"]).
Proof.
  split.
  - apply C8_no_python_file_no_finding.
    intros root dirs files file Hin Hf. cbn in Hin.
    destruct Hin as [Hin | []]. injection Hin as _ _ <-. destruct Hf.
  - apply C8_no_python_file_no_finding.
    intros root dirs files file Hin Hf. cbn in Hin.
    destruct Hin as [Hin | []]. injection Hin as _ _ <-.
    destruct Hf as [<- | []]. reflexivity.
Defined.

(** C9. When the path is an existing file and the names are accepted,
    [main] analyses that file and reports what [analyze_file] returned:
    neither the name of the file nor the exclusion list is consulted, and
    the run is the same for every exclusion list. *)
Theorem C9_single_file_bypasses_filters (fs : filesystem) (args : arguments) :
  name_matches (token_name args) = true ->
  name_matches (form_field args) = true ->
  fs_isfile fs (source_code_path args) = true ->
  exists g v t,
    analyze_file fs (source_code_path args) (token_name args) (form_field args)
    = (Done (g, v), t)
    /\ main fs args
       = (Done tt,
          (IsFile (source_code_path args) :: t
           ++ [report_generation g; report_validation v])%list)
    /\ In (Open (source_code_path args)) (trace (main fs args))
    /\ forall exclude' : list string,
         main fs {| source_code_path := source_code_path args;
                    token_name := token_name args;
                    form_field := form_field args;
                    exclude := exclude' |}
         = main fs args.
Proof.
  intros Ht Hf Hp.
  exists (fst (file_result fs (token_name args) (form_field args)
                           (source_code_path args))),
         (snd (file_result fs (token_name args) (form_field args)
                           (source_code_path args))),
         (file_trace fs (source_code_path args)).
  assert (Em : forall a,
             source_code_path a = source_code_path args ->
             token_name a = token_name args ->
             form_field a = form_field args ->
             main fs a
             = (Done tt,
                (IsFile (source_code_path args)
                 :: file_trace fs (source_code_path args)
                 ++ [report_generation
                       (fst (file_result fs (token_name args) (form_field args)
                                         (source_code_path args)));
                     report_validation
                       (snd (file_result fs (token_name args) (form_field args)
                                         (source_code_path args)))])%list)).
  { intros a E1 E2 E3. rewrite main_eq. cbv zeta.
    rewrite E1, E2, E3, Ht, Hf, Hp. reflexivity. }
  split; [| split; [| split]].
  - rewrite analyze_file_eq. now destruct (file_result _ _ _ _).
  - now apply Em.
  - rewrite (Em args) by reflexivity. unfold trace. cbn [snd].
    right. apply in_or_app. left. now apply Open_in_file_trace.
  - intros exclude'. rewrite (Em args) by reflexivity. now apply Em.
Qed.

Lemma C9_witness :
  Str.endswith "proj/notes.txt" ".py" = false
  /\ is_excluded "proj" ["notes.txt"] "proj/notes.txt" = true
  /\ exists g v t,
       analyze_file project_fs "proj/notes.txt" "csrf_token" "csrf_token"
       = (Done (g, v), t)
       /\ main project_fs
               {| source_code_path := "proj/notes.txt";
                  token_name := "csrf_token"; form_field := "csrf_token";
                  exclude := ["notes.txt"] |}
          = (Done tt,
             (IsFile "proj/notes.txt" :: t
              ++ [report_generation g; report_validation v])%list).
Proof.
  split; [reflexivity | split; [reflexivity |]].
  destruct (C9_single_file_bypasses_filters project_fs
              {| source_code_path := "proj/notes.txt";
                 token_name := "csrf_token"; form_field := "csrf_token";
                 exclude := ["notes.txt"] |}
              eq_refl eq_refl eq_refl) as [g [v [t [Ha [Hm _]]]]].
  exists g, v, t. split; [exact Ha | exact Hm].
Defined.

(** C10. Lengthening the exclusion list can only lower the result of
    [analyze_directory]: when every entry of [exclude] is also in
    [exclude'], each flag obtained with [exclude'] is true only if the
    flag obtained with [exclude] is true. *)
Theorem C10_result_antitone_in_exclude
    (fs : filesystem) (dir_path tn ff : string) (exclude exclude' : list string) :
  incl exclude exclude' ->
  exists g v g' v',
    value (analyze_directory fs dir_path tn ff exclude) = Done (g, v)
    /\ value (analyze_directory fs dir_path tn ff exclude') = Done (g', v')
    /\ (g' = true -> g = true)
    /\ (v' = true -> v = true).
Proof.
  intros Hincl. rewrite !analyze_directory_value.
  do 4 eexists. split; [reflexivity |]. split; [reflexivity |].
  unfold scanned_files.
  split; apply existsb_filter_incl; intros p Hp;
    destruct (is_excluded dir_path exclude p) eqn:E; auto;
    rewrite (is_excluded_incl _ _ _ _ Hincl E) in Hp; discriminate.
Qed.

Lemma C10_witness :
  incl ["sub"] ["val.py"; "sub"; "test"]
  /\ value (analyze_directory project_fs "proj" "csrf_token" "csrf_token"
                              ["sub"])
     = Done (true, true)
  /\ value (analyze_directory project_fs "proj" "csrf_token" "csrf_token"
                              ["val.py"; "sub"; "test"])
     = Done (true, false)
  /\ exists g v g' v',
       value (analyze_directory project_fs "proj" "csrf_token" "csrf_token"
                                ["sub"])
       = Done (g, v)
       /\ value (analyze_directory project_fs "proj" "csrf_token" "csrf_token"
                                   ["val.py"; "sub"; "test"])
          = Done (g', v')
       /\ (g' = true -> g = true)
       /\ (v' = true -> v = true).
Proof.
  assert (Hincl : incl ["sub"] ["val.py"; "sub"; "test"])
    by (intros x [<- | []]; cbn; auto).
  refine (conj Hincl (conj _ (conj _ _))).
  - vm_compute. reflexivity.
  - vm_compute. reflexivity.
  - exact (C10_result_antitone_in_exclude
             project_fs "proj" "csrf_token" "csrf_token" _ _ Hincl).
Defined.

(* ================================================================== *)
(** * Further properties of [main] *)

(** X1. The names that the check of [main] accepts are exactly the
    identifiers (a letter or an underscore, then letters, digits and
    underscores) and the identifiers followed by one newline. *)
Theorem X1_accepted_names (name : string) :
  name_matches name = true
  <-> is_identifier name = true
      \/ exists w, name = w ++ String newline "" /\ is_identifier w = true.
Proof.
  split.
  - intros H. now apply name_matches_spec.
  - intros H. now apply name_matches_spec.
Qed.

(** X2. When one of the two names fails the check, [main] logs one error
    and exits with code 1; the trace holds no file-system event, whatever
    the path, the exclusion list and the file system are. *)
Theorem X2_rejected_names_touch_nothing (fs : filesystem) (args : arguments) :
  name_matches (token_name args) = false
  \/ name_matches (form_field args) = false ->
  value (main fs args) = Exited 1%Z
  /\ trace (main fs args) = [invalid_names_event]
  /\ existsb is_io (trace (main fs args)) = false.
Proof.
  intros H. rewrite (main_rejects_unmatched_names fs args H).
  repeat split.
Qed.

Lemma X2_witness :
  name_matches "2fa token" = false
  /\ value (main project_fs
                 {| source_code_path := "proj"; token_name := "2fa token";
                    form_field := "csrf_token"; exclude := [] |})
     = Exited 1%Z.
Proof.
  assert (H : name_matches "2fa token" = false) by reflexivity.
  refine (conj H _).
  exact (proj1 (X2_rejected_names_touch_nothing project_fs
                  {| source_code_path := "proj"; token_name := "2fa token";
                     form_field := "csrf_token"; exclude := [] |}
                  (or_introl H))).
Defined.

(** X3. With accepted names and a path that is neither a file nor a
    directory, [main] asks [isfile] and [isdir], logs the path as invalid
    and exits with code 1: nothing is walked or opened and no finding is
    reported. *)
Theorem X3_invalid_path (fs : filesystem) (args : arguments) :
  name_matches (token_name args) = true ->
  name_matches (form_field args) = true ->
  fs_isfile fs (source_code_path args) = false ->
  fs_isdir fs (source_code_path args) = false ->
  main fs args
  = (Exited 1%Z,
     [IsFile (source_code_path args); IsDir (source_code_path args);
      Log ERROR ("Invalid source code path: " ++ source_code_path args)]).
Proof.
  intros Ht Hf Hi Hd. rewrite main_eq. cbv zeta.
  rewrite Ht, Hf, Hi, Hd. reflexivity.
Qed.

Lemma X3_witness :
  main project_fs
       {| source_code_path := "nowhere"; token_name := "csrf_token";
          form_field := "csrf_token"; exclude := [] |}
  = (Exited 1%Z,
     [IsFile "nowhere"; IsDir "nowhere";
      Log ERROR "Invalid source code path: nowhere"]).
Proof.
  exact (X3_invalid_path project_fs
           {| source_code_path := "nowhere"; token_name := "csrf_token";
              form_field := "csrf_token"; exclude := [] |}
           eq_refl eq_refl eq_refl eq_refl).
Defined.

Section DirectoryRun.

Variable fs : filesystem.

Lemma found_line_not_in_visits (dir_path : string) (exclude : list string)
    (paths : list string) :
  ~ In generation_found_line (flat_map (visit_trace fs dir_path exclude) paths)
  /\ ~ In validation_found_line
         (flat_map (visit_trace fs dir_path exclude) paths).
Proof.
  split; intros H; apply in_flat_map in H as [q [_ H]];
    unfold visit_trace, file_trace, skip_event in H;
    destruct (is_excluded dir_path exclude q), (fs_read fs q); cbn in H;
    repeat match type of H with _ \/ _ => destruct H as [H|H] end;
    try discriminate; contradiction.
Qed.

Lemma flag_true_iff (tn ff : string) (paths : list string) :
  (existsb (fun p => fst (file_result fs tn ff p)) paths = true
   <-> exists q code,
         In q paths /\ fs_read fs q = ReadOk code
         /\ is_token_generation_present code tn = true)
  /\ (existsb (fun p => snd (file_result fs tn ff p)) paths = true
      <-> exists q code,
            In q paths /\ fs_read fs q = ReadOk code
            /\ is_token_validation_present code tn ff = true).
Proof.
  split; rewrite existsb_exists; split.
  - intros [q [Hq H]]. unfold file_result in H.
    destruct (fs_read fs q) as [code| |] eqn:E; try discriminate.
    exists q, code. auto.
  - intros [q [code [Hq [E H]]]]. exists q. split; [exact Hq |].
    unfold file_result. now rewrite E.
  - intros [q [Hq H]]. unfold file_result in H.
    destruct (fs_read fs q) as [code| |] eqn:E; try discriminate.
    exists q, code. auto.
  - intros [q [code [Hq [E H]]]]. exists q. split; [exact Hq |].
    unfold file_result. now rewrite E.
Qed.

(** X4. A run on a directory with accepted names asks [isfile] and
    [isdir], performs the directory scan and ends normally with the two
    report lines for the flags of the scan.  The line that announces token
    generation is logged exactly when some scanned file was read and its
    text has a generation idiom, and likewise for validation. *)
Theorem X4_directory_run_reports (args : arguments) :
  name_matches (token_name args) = true ->
  name_matches (form_field args) = true ->
  fs_isfile fs (source_code_path args) = false ->
  fs_isdir fs (source_code_path args) = true ->
  let scan :=
    analyze_directory fs (source_code_path args) (token_name args)
                      (form_field args) (exclude args) in
  let scanned := scanned_files fs (source_code_path args) (exclude args) in
  (exists g v,
      value scan = Done (g, v)
      /\ main fs args
         = (Done tt,
            (IsFile (source_code_path args) :: IsDir (source_code_path args)
             :: trace scan
             ++ [report_generation g; report_validation v])%list))
  /\ (In generation_found_line (trace (main fs args))
      <-> exists q code,
            In q scanned /\ fs_read fs q = ReadOk code
            /\ is_token_generation_present code (token_name args) = true)
  /\ (In validation_found_line (trace (main fs args))
      <-> exists q code,
            In q scanned /\ fs_read fs q = ReadOk code
            /\ is_token_validation_present code (token_name args)
                 (form_field args) = true).
Proof.
  intros Ht Hf Hi Hd scan scanned. subst scan scanned.
  assert (Em : main fs args
               = (Done tt,
                  (IsFile (source_code_path args) :: IsDir (source_code_path args)
                   :: trace (analyze_directory fs (source_code_path args)
                               (token_name args) (form_field args) (exclude args))
                   ++ [report_generation
                         (existsb (fun p => fst (file_result fs (token_name args)
                                                   (form_field args) p))
                                  (scanned_files fs (source_code_path args)
                                                 (exclude args)));
                       report_validation
                         (existsb (fun p => snd (file_result fs (token_name args)
                                                   (form_field args) p))
                                  (scanned_files fs (source_code_path args)
                                                 (exclude args)))])%list)).
  { rewrite main_eq. cbv zeta. rewrite Ht, Hf, Hi, Hd.
    rewrite analyze_directory_eq. reflexivity. }
  destruct (flag_true_iff (token_name args) (form_field args)
              (scanned_files fs (source_code_path args) (exclude args)))
    as [Hg Hv].
  destruct (found_line_not_in_visits (source_code_path args) (exclude args)
              (candidate_paths (fs_walk fs (source_code_path args))))
    as [Ng Nv].
  split; [| split].
  - do 2 eexists. split; [apply analyze_directory_value | exact Em].
  - rewrite <- Hg, Em. unfold trace. cbn [snd].
    rewrite analyze_directory_eq. cbn [snd]. split.
    + intros [H | [H | H]]; try discriminate.
      apply in_app_or in H as [[H | H] | [H | [H | []]]]; try discriminate.
      * contradiction.
      * revert H. destruct (existsb _ _); [reflexivity | discriminate].
      * revert H. destruct (existsb _ (scanned_files _ _ _)) at 1; discriminate.
    + intros H. rewrite H. right. right. apply in_or_app. right. now left.
  - rewrite <- Hv, Em. unfold trace. cbn [snd].
    rewrite analyze_directory_eq. cbn [snd]. split.
    + intros [H | [H | H]]; try discriminate.
      apply in_app_or in H as [[H | H] | [H | [H | []]]]; try discriminate.
      * contradiction.
      * revert H. destruct (existsb _ _); discriminate.
      * revert H.
        destruct (existsb (fun p => snd _) _); [reflexivity | discriminate].
    + intros H. rewrite H. right. right. apply in_or_app. right. right. now left.
Qed.

End DirectoryRun.

Lemma X4_witness :
  In generation_found_line
     (trace (main project_fs
                  {| source_code_path := "broken"; token_name := "csrf_token";
                     form_field := "csrf_token"; exclude := [] |}))
  <-> exists q code,
        In q (scanned_files project_fs "broken" [])
        /\ fs_read project_fs q = ReadOk code
        /\ is_token_generation_present code "csrf_token" = true.
Proof.
  exact (proj1 (proj2 (X4_directory_run_reports project_fs
                         {| source_code_path := "broken";
                            token_name := "csrf_token";
                            form_field := "csrf_token"; exclude := [] |}
                         eq_refl eq_refl eq_refl eq_refl))).
Defined.

(* ================================================================== *)
(** * Further properties of the directory scan *)

Section ScanProperties.

Variable fs : filesystem.

Lemma io_of_visits (dir_path : string) (exclude : list string)
    (paths : list string) :
  filter is_io (flat_map (visit_trace fs dir_path exclude) paths)
  = map Open (filter (fun p => negb (is_excluded dir_path exclude p)) paths).
Proof.
  induction paths as [|p paths IH]; [reflexivity |].
  cbn [flat_map filter map]. rewrite filter_app, IH.
  unfold visit_trace, file_trace.
  destruct (is_excluded dir_path exclude p); cbn [negb]; [reflexivity |].
  destruct (fs_read fs p); reflexivity.
Qed.

(** X5. The file-system events of a directory scan are the walk of the
    directory followed by one [open] for each scanned file, in the order
    of the walk: every scanned file is opened exactly once, and nothing
    that is excluded or whose name does not end in [.py] is opened. *)
Theorem X5_scan_opens_each_scanned_file_once
    (dir_path tn ff : string) (exclude : list string) :
  filter is_io (trace (analyze_directory fs dir_path tn ff exclude))
  = Walk dir_path :: map Open (scanned_files fs dir_path exclude).
Proof.
  rewrite analyze_directory_eq. unfold trace, scanned_files. cbn [snd filter is_io].
  now rewrite io_of_visits.
Qed.

Lemma flat_map_ext_on {A B : Type} (f g : A -> list B) (l : list A) :
  (forall x, In x l -> f x = g x) -> flat_map f l = flat_map g l.
Proof.
  induction l as [|x l IH]; intros H; [reflexivity |].
  cbn [flat_map]. rewrite (H x) by now left.
  rewrite IH; [reflexivity |]. intros y Hy. apply H. now right.
Qed.

Lemma is_excluded_without (dir_path file_path e : string)
    (ex1 ex2 : list string) :
  exclusion_hits dir_path file_path e = false ->
  is_excluded dir_path (ex1 ++ e :: ex2) file_path
  = is_excluded dir_path (ex1 ++ ex2) file_path.
Proof.
  intros H. unfold is_excluded. rewrite !existsb_app. cbn [existsb].
  now rewrite H.
Qed.

(** X7. An exclusion entry that hits no candidate of the walk is without
    effect: with it or without it, at any place of the list, the scan
    returns the same flags and leaves the same trace. *)
Theorem X7_idle_exclusion_entry
    (dir_path tn ff e : string) (ex1 ex2 : list string) :
  (forall p, In p (candidate_paths (fs_walk fs dir_path)) ->
             exclusion_hits dir_path p e = false) ->
  analyze_directory fs dir_path tn ff (ex1 ++ e :: ex2)
  = analyze_directory fs dir_path tn ff (ex1 ++ ex2).
Proof.
  intros H. rewrite !analyze_directory_eq. unfold scanned_files.
  assert (Ef : filter (fun p => negb (is_excluded dir_path (ex1 ++ e :: ex2) p))
                      (candidate_paths (fs_walk fs dir_path))
               = filter (fun p => negb (is_excluded dir_path (ex1 ++ ex2) p))
                        (candidate_paths (fs_walk fs dir_path))).
  { apply filter_ext_in. intros p Hp.
    now rewrite (is_excluded_without _ _ _ _ _ (H p Hp)). }
  assert (Et : flat_map (visit_trace fs dir_path (ex1 ++ e :: ex2))
                        (candidate_paths (fs_walk fs dir_path))
               = flat_map (visit_trace fs dir_path (ex1 ++ ex2))
                          (candidate_paths (fs_walk fs dir_path))).
  { apply flat_map_ext_on. intros p Hp. unfold visit_trace.
    now rewrite (is_excluded_without _ _ _ _ _ (H p Hp)). }
  now rewrite Ef, Et.
Qed.

End ScanProperties.

Lemma X7_witness :
  analyze_directory project_fs "pair" "csrf_token" "csrf_token"
                    ["gen.py"; "test"]
  = analyze_directory project_fs "pair" "csrf_token" "csrf_token" ["gen.py"].
Proof.
  apply (X7_idle_exclusion_entry project_fs "pair" "csrf_token" "csrf_token"
           "test" ["gen.py"] []).
  intros p Hp. cbn in Hp.
  destruct Hp as [<- | [<- | []]]; reflexivity.
Defined.

(** X6. The flags of a directory scan depend on the walk only through the
    set of candidate paths, and on the files only through what reading the
    candidates gives: two file systems that list the same candidates, in
    whatever order and split over whatever triples, and read them alike
    give the same flags. *)
Theorem X6_flags_do_not_depend_on_listing_order
    (fs fs' : filesystem) (dir_path tn ff : string) (exclude : list string) :
  (forall p, In p (candidate_paths (fs_walk fs dir_path))
             <-> In p (candidate_paths (fs_walk fs' dir_path))) ->
  (forall p, In p (candidate_paths (fs_walk fs dir_path)) ->
             fs_read fs p = fs_read fs' p) ->
  value (analyze_directory fs dir_path tn ff exclude)
  = value (analyze_directory fs' dir_path tn ff exclude).
Proof.
  intros Hc Hr. rewrite !analyze_directory_value. unfold scanned_files.
  assert (Hres : forall p, In p (candidate_paths (fs_walk fs dir_path)) ->
                           file_result fs tn ff p = file_result fs' tn ff p).
  { intros p Hp. unfold file_result. now rewrite (Hr p Hp). }
  f_equal. f_equal; apply Bool.eq_iff_eq_true; rewrite !existsb_exists;
    split; intros [p [Hp H]]; exists p;
    apply filter_In in Hp as [Hp Hk]; rewrite filter_In.
  - rewrite <- (Hres p Hp). split; [split; [now apply Hc | exact Hk] | exact H].
  - apply Hc in Hp. rewrite (Hres p Hp).
    split; [split; [exact Hp | exact Hk] | exact H].
  - rewrite <- (Hres p Hp). split; [split; [now apply Hc | exact Hk] | exact H].
  - apply Hc in Hp. rewrite (Hres p Hp).
    split; [split; [exact Hp | exact Hk] | exact H].
Qed.

Lemma X6_witness :
  value (analyze_directory project_fs "pair" "csrf_token" "csrf_token" [])
  = value (analyze_directory pair_reversed_fs "pair" "csrf_token" "csrf_token" []).
Proof.
  apply X6_flags_do_not_depend_on_listing_order.
  - intros p. cbn. tauto.
  - intros p Hp. cbn in Hp. destruct Hp as [<- | [<- | []]]; reflexivity.
Defined.

(* ================================================================== *)
(** * Further properties of the pattern predicates *)

Section PatternProperties.

Local Hint Constructors Matches : re.

Lemma search_patterns_occurs (patterns : list regex) (code : string) :
  search_patterns patterns code = true
  <-> exists p, In p patterns /\ Occurs p code.
Proof.
  induction patterns as [|q rest IH]; cbn [search_patterns In].
  - split; [discriminate | intros [p [[] _]]].
  - destruct (search q code) eqn:Eq.
    + split; [| reflexivity]. intros _. exists q. split; [now left |].
      now apply search_spec.
    + rewrite IH. split.
      * intros [p [Hin Ho]]. exists p. auto.
      * intros [p [[<- | Hin] Ho]]; [| exists p; auto].
        apply search_spec in Ho. congruence.
Qed.

Lemma Matches_Star_Sym (cs : charset) (s : string) :
  (fix all (w : string) : bool :=
     match w with
     | EmptyString => true
     | String c w' => charset_mem cs c && all w'
     end) s = true ->
  Matches (Star (Sym cs)) s.
Proof.
  induction s as [|c s IH]; [constructor |].
  intros H. apply andb_true_iff in H as [Hc Hs].
  change (String c s) with (String c "" ++ s)%string.
  constructor; [now constructor | now apply IH].
Qed.

Lemma Matches_spaces (ws : string) : all_space ws = true -> Matches spaces ws.
Proof. exact (Matches_Star_Sym CSpace ws). Qed.

Lemma Matches_anything (a : string) : no_newline a = true -> Matches anything a.
Proof. exact (Matches_Star_Sym CDot a). Qed.

Lemma Matches_word (w : string) :
  all_word_chars w = true -> Matches (Star (Sym word_char)) w.
Proof. exact (Matches_Star_Sym word_char w). Qed.

Lemma Matches_underscores (n : nat) :
  Matches (Star (Sym (CSet [("_", "_")]%char))) (Str.repeat "_" n).
Proof.
  induction n as [|n IH]; cbn [Str.repeat]; [constructor |].
  constructor; [now constructor | exact IH].
Qed.

Lemma Matches_receiver (receiver : string) :
  all_word_chars receiver = true ->
  Matches (Opt (Cat (Plus (Sym word_char)) (chr ".")))
          (if (receiver =? "")%string then "" else receiver ++ ".").
Proof.
  intros H. destruct receiver as [|c r]; cbn [String.eqb].
  - apply MAltR. constructor.
  - apply MAltL. constructor; [| apply Matches_chr].
    cbn [all_word_chars] in H. apply andb_true_iff in H as [Hc Hr].
    unfold Plus. change (String c r) with (String c "" ++ r)%string.
    constructor; [now constructor | now apply Matches_word].
Qed.

Lemma Matches_Seq_app (r : regex) (rs : list regex) (s s1 s2 : string) :
  s = s1 ++ s2 -> Matches r s1 -> Matches (Seq rs) s2 ->
  Matches (Seq (r :: rs)) s.
Proof. intros -> H1 H2. now apply Matches_Seq_cons. Qed.

(** The end of the four generation patterns: [\s* \( .* \)]. *)
Lemma Matches_call_tail (ws a : string) :
  all_space ws = true -> no_newline a = true ->
  Matches (Seq [spaces; chr "("; anything; chr ")"]) (ws ++ "(" ++ a ++ ")").
Proof.
  intros Hw Ha.
  apply (Matches_Seq_app _ _ _ ws ("(" ++ a ++ ")"));
    [reflexivity | now apply Matches_spaces |].
  apply (Matches_Seq_app _ _ _ "(" (a ++ ")"));
    [reflexivity | apply Matches_chr |].
  apply (Matches_Seq_app _ _ _ a ")");
    [reflexivity | now apply Matches_anything |].
  apply (Matches_Seq_app _ _ _ ")" ""); [reflexivity | apply Matches_chr |].
  constructor.
Qed.

(** The start of the four generation patterns: [{token_name} \s* = \s*]. *)
Lemma Matches_assignment (tn ws1 ws2 rest : string) (rs : list regex) :
  all_space ws1 = true -> all_space ws2 = true ->
  Matches (Seq rs) rest ->
  Matches (Seq (Lit tn :: spaces :: chr "=" :: spaces :: rs))
          (tn ++ ws1 ++ "=" ++ ws2 ++ rest).
Proof.
  intros H1 H2 Hr.
  apply (Matches_Seq_app _ _ _ tn (ws1 ++ "=" ++ ws2 ++ rest));
    [reflexivity | apply Matches_Lit |].
  apply (Matches_Seq_app _ _ _ ws1 ("=" ++ ws2 ++ rest));
    [reflexivity | now apply Matches_spaces |].
  apply (Matches_Seq_app _ _ _ "=" (ws2 ++ rest));
    [reflexivity | apply Matches_chr |].
  apply (Matches_Seq_app _ _ _ ws2 rest);
    [reflexivity | now apply Matches_spaces | exact Hr].
Qed.

Lemma generator_pattern (g : generator) (tn ws1 ws2 ws3 a : string) :
  receiver_ok g = true ->
  all_space ws1 = true -> all_space ws2 = true -> all_space ws3 = true ->
  no_newline a = true ->
  exists p,
    In p (generation_patterns tn)
    /\ Matches p (tn ++ ws1 ++ "=" ++ ws2
                     ++ generator_call g ++ ws3 ++ "(" ++ a ++ ")").
Proof.
  intros Hg H1 H2 H3 Ha.
  pose proof (Matches_call_tail ws3 a H3 Ha) as Ht.
  destruct g as [receiver n | | |]; cbn [generator_call receiver_ok] in *.
  - eexists. split; [left; reflexivity |].
    rewrite !append_assoc.
    apply Matches_assignment; try assumption.
    apply (Matches_Seq_app _ _ _ _ _ eq_refl (Matches_receiver _ Hg)).
    apply (Matches_Seq_app _ _ _ "generate"
             (Str.repeat "_" n ++ "token" ++ ws3 ++ "(" ++ a ++ ")"));
      [reflexivity | apply Matches_Lit |].
    apply (Matches_Seq_app _ _ _ _ _ eq_refl (Matches_underscores n)).
    apply (Matches_Seq_app _ _ _ "token" (ws3 ++ "(" ++ a ++ ")"));
      [reflexivity | apply Matches_Lit | exact Ht].
  - eexists. split; [right; left; reflexivity |].
    apply Matches_assignment; try assumption.
    apply (Matches_Seq_app _ _ _ "secrets" ("." ++ "token_hex" ++ ws3 ++ "(" ++ a ++ ")"));
      [reflexivity | apply Matches_Lit |].
    apply (Matches_Seq_app _ _ _ "." ("token_hex" ++ ws3 ++ "(" ++ a ++ ")"));
      [reflexivity | apply Matches_chr |].
    apply (Matches_Seq_app _ _ _ "token_hex" (ws3 ++ "(" ++ a ++ ")"));
      [reflexivity | apply Matches_Lit | exact Ht].
  - eexists. split; [right; right; left; reflexivity |].
    apply Matches_assignment; try assumption.
    apply (Matches_Seq_app _ _ _ "os" ("." ++ "urandom" ++ ws3 ++ "(" ++ a ++ ")"));
      [reflexivity | apply Matches_Lit |].
    apply (Matches_Seq_app _ _ _ "." ("urandom" ++ ws3 ++ "(" ++ a ++ ")"));
      [reflexivity | apply Matches_chr |].
    apply (Matches_Seq_app _ _ _ "urandom" (ws3 ++ "(" ++ a ++ ")"));
      [reflexivity | apply Matches_Lit | exact Ht].
  - eexists. split; [right; right; right; left; reflexivity |].
    apply Matches_assignment; try assumption.
    apply (Matches_Seq_app _ _ _ "uuid" ("." ++ "uuid4" ++ ws3 ++ "(" ++ a ++ ")"));
      [reflexivity | apply Matches_Lit |].
    apply (Matches_Seq_app _ _ _ "." ("uuid4" ++ ws3 ++ "(" ++ a ++ ")"));
      [reflexivity | apply Matches_chr |].
    apply (Matches_Seq_app _ _ _ "uuid4" (ws3 ++ "(" ++ a ++ ")"));
      [reflexivity | apply Matches_Lit | exact Ht].
Qed.

(** X8. For a token name that passes the check of [main], an assignment
    of one of the four generator calls to the token name is reported as token generation wherever it stands in the text:
    with any white space, line breaks included, around the [=] and before
    the parenthesis, with any arguments that stay on one line, and with
    any text before and after (no word boundary is asked for, so a longer
    variable name that ends in the token name counts as well). *)
Theorem X8_generation_idioms_found
    (g : generator) (tn pre ws1 ws2 ws3 a suf : string) :
  name_matches tn = true ->
  receiver_ok g = true ->
  all_space ws1 = true -> all_space ws2 = true -> all_space ws3 = true ->
  no_newline a = true ->
  is_token_generation_present
    (pre ++ (tn ++ ws1 ++ "=" ++ ws2 ++ generator_call g ++ ws3
                ++ "(" ++ a ++ ")") ++ suf)
    tn
  = true.
Proof.
  intros _ Hg H1 H2 H3 Ha.
  destruct (generator_pattern g tn ws1 ws2 ws3 a Hg H1 H2 H3 Ha) as [p [Hin Hm]].
  unfold is_token_generation_present. apply search_patterns_occurs.
  exists p. split; [exact Hin |].
  eexists pre, _, suf. split; [reflexivity | exact Hm].
Qed.

End PatternProperties.

Lemma X8_witness :
  is_token_generation_present
    ("    my_" ++ ("csrf_token" ++ " " ++ "=" ++ String newline "    "
                   ++ generator_call (GenerateToken "self" 2) ++ " "
                   ++ "(" ++ "request, 32" ++ ")") ++ "  # fresh")
    "csrf_token"
  = true.
Proof.
  apply (X8_generation_idioms_found (GenerateToken "self" 2) "csrf_token"
           "    my_" " " (String newline "    ") " " "request, 32" "  # fresh");
    reflexivity.
Defined.

Section NecessaryText.

Lemma Substring_refl (s : string) : Substring s s.
Proof. exists "", "". cbn. now rewrite append_nil_r. Qed.

Lemma Substring_trans (a b c : string) :
  Substring a b -> Substring b c -> Substring a c.
Proof.
  intros [p1 [s1 ->]] [p2 [s2 ->]]. exists (p2 ++ p1), (s1 ++ s2).
  now rewrite !append_assoc.
Qed.

Lemma Substring_app_l (a s t : string) : Substring a s -> Substring a (s ++ t).
Proof.
  intros [p [q ->]]. exists p, (q ++ t). now rewrite !append_assoc.
Qed.

Lemma Substring_app_r (a s t : string) : Substring a t -> Substring a (s ++ t).
Proof.
  intros [p [q ->]]. exists (s ++ p), q. now rewrite !append_assoc.
Qed.

Lemma Matches_Lit_inv (s x : string) : Matches (Lit s) x -> x = s.
Proof.
  revert x. induction s as [|c s IH]; intros x H; cbn [Lit] in H.
  - now apply Matches_Eps.
  - apply Matches_Cat_inv in H as [x1 [x2 [-> [H1 H2]]]].
    apply Matches_Sym_inv in H1 as [d [-> Hd]].
    cbn in Hd. apply Ascii.eqb_eq in Hd. subst d.
    cbn. f_equal. now apply IH.
Qed.

Lemma Matches_chr_inv (c : ascii) (x : string) :
  Matches (chr c) x -> x = String c "".
Proof.
  intros H. apply Matches_Sym_inv in H as [d [-> Hd]].
  cbn in Hd. apply Ascii.eqb_eq in Hd. now subst d.
Qed.

(** Every piece of a sequence matches some substring of a word of the
    sequence. *)
Lemma Matches_Seq_piece (rs : list regex) (m : string) (r : regex) :
  Matches (Seq rs) m -> In r rs -> exists x, Substring x m /\ Matches r x.
Proof.
  revert m. induction rs as [|r0 rs IH]; intros m H Hin; [destruct Hin |].
  cbn [Seq] in H. apply Matches_Cat_inv in H as [m1 [m2 [-> [H1 H2]]]].
  destruct Hin as [<- | Hin].
  - exists m1. split; [| exact H1]. apply Substring_app_l, Substring_refl.
  - destruct (IH m2 H2 Hin) as [x [Hx Hm]].
    exists x. split; [| exact Hm]. now apply Substring_app_r.
Qed.

Lemma Occurs_Seq_Lit (rs : list regex) (code s : string) :
  Occurs (Seq rs) code -> In (Lit s) rs -> Substring s code.
Proof.
  intros [pre [m [suf [-> Hm]]]] Hin.
  destruct (Matches_Seq_piece rs m (Lit s) Hm Hin) as [x [Hx Hs]].
  apply Matches_Lit_inv in Hs. subst x.
  apply Substring_app_r, Substring_app_l. exact Hx.
Qed.

Lemma Occurs_Seq_chr (rs : list regex) (code : string) (c : ascii) :
  Occurs (Seq rs) code -> In (chr c) rs -> Substring (String c "") code.
Proof.
  intros [pre [m [suf [-> Hm]]]] Hin.
  destruct (Matches_Seq_piece rs m (chr c) Hm Hin) as [x [Hx Hs]].
  apply Matches_chr_inv in Hs. subst x.
  apply Substring_app_r, Substring_app_l. exact Hx.
Qed.

(** X9. For a token name that passes the check of [main], token
    generation is reported only for a text that holds the token name, an equals sign and both parentheses: a text without the name, or
    without a call, is never reported. *)
Theorem X9_generation_needs (code tn : string) :
  name_matches tn = true ->
  is_token_generation_present code tn = true ->
  Substring tn code /\ Substring "=" code
  /\ Substring "(" code /\ Substring ")" code.
Proof.
  unfold is_token_generation_present. intros _ H.
  apply search_patterns_occurs in H as [p [Hin Ho]].
  cbn [generation_patterns In] in Hin.
  destruct Hin as [<- | [<- | [<- | [<- | []]]]];
    (split; [apply (Occurs_Seq_Lit _ _ _ Ho); cbn; tauto |]);
    (split; [apply (Occurs_Seq_chr _ _ _ Ho); cbn; tauto |]);
    (split; apply (Occurs_Seq_chr _ _ _ Ho); cbn; tauto).
Qed.

Lemma X9_witness :
  Substring "csrf_token" generation_text /\ Substring "=" generation_text
  /\ Substring "(" generation_text /\ Substring ")" generation_text.
Proof.
  apply (X9_generation_needs generation_text "csrf_token"); reflexivity.
Defined.

(** X10. For names that pass the check of [main], token validation is
    reported only for a text that holds the word
    [if], the word [request], an inequality sign [!=], a closing square
    bracket, the token name and the field name.  A comparison written with
    [==], or one that uses only the call [get(...)] and so holds no square
    bracket, is never reported. *)
Theorem X10_validation_needs (code tn ff : string) :
  name_matches tn = true ->
  name_matches ff = true ->
  is_token_validation_present code tn ff = true ->
  Substring "if" code /\ Substring "request" code /\ Substring "!=" code
  /\ Substring "]" code /\ Substring tn code /\ Substring ff code.
Proof.
  unfold is_token_validation_present. intros _ _ H.
  apply search_patterns_occurs in H as [p [Hin Ho]].
  cbn [validation_patterns In] in Hin.
  destruct Hin as [<- | [<- | [<- | [<- | []]]]];
    (split; [apply (Occurs_Seq_Lit _ _ _ Ho); cbn; tauto |]);
    (split; [apply (Occurs_Seq_Lit _ _ _ Ho); cbn; tauto |]);
    (split; [apply (Occurs_Seq_Lit _ _ _ Ho); cbn; tauto |]);
    (split; [apply (Occurs_Seq_chr _ _ _ Ho); cbn; tauto |]);
    (split; apply (Occurs_Seq_Lit _ _ _ Ho); cbn; tauto).
Qed.

Lemma X10_witness :
  Substring "if" subscript_validation_text
  /\ Substring "request" subscript_validation_text
  /\ Substring "!=" subscript_validation_text
  /\ Substring "]" subscript_validation_text
  /\ Substring "csrf_token" subscript_validation_text
  /\ Substring "csrf_token" subscript_validation_text.
Proof.
  apply (X10_validation_needs subscript_validation_text
           "csrf_token" "csrf_token"); reflexivity.
Defined.

Lemma Occurs_in_context (r : regex) (pre code suf : string) :
  Occurs r code -> Occurs r (pre ++ code ++ suf).
Proof.
  intros [p [m [s [-> Hm]]]]. exists (pre ++ p), m, (s ++ suf).
  split; [| exact Hm]. now rewrite !append_assoc.
Qed.

(** X11. For names that pass the check of [main], a finding survives any
    text put before and after: a text in
    which an idiom is found stays found when it is embedded in a larger
    text, for generation and for validation alike. *)
Theorem X11_findings_survive_context (code tn ff pre suf : string) :
  name_matches tn = true ->
  (is_token_generation_present code tn = true ->
   is_token_generation_present (pre ++ code ++ suf) tn = true)
  /\ (name_matches ff = true ->
      is_token_validation_present code tn ff = true ->
      is_token_validation_present (pre ++ code ++ suf) tn ff = true).
Proof.
  unfold is_token_generation_present, is_token_validation_present.
  intros _.
  split; [intros H | intros _ H];
    apply search_patterns_occurs in H as [p [Hin Ho]];
    apply search_patterns_occurs; exists p;
    (split; [exact Hin | now apply Occurs_in_context]).
Qed.

End NecessaryText.

Lemma X11_witness :
  is_token_generation_present
    ("import os" ++ String newline "" ++ generation_text ++ String newline "")
    "csrf_token"
  = true.
Proof.
  apply (proj1 (X11_findings_survive_context generation_text "csrf_token"
                  "csrf_token" ("import os" ++ String newline "")
                  (String newline "") eq_refl)).
  reflexivity.
Defined.

(** X12. For names that pass the check of [main], the comparison of the
    subscripted session token with the subscripted form field (the third
    pattern) is reported as validation wherever it stands, for either
    request object and either quote character around each name. *)
Theorem X12_session_subscript_shape_found
    (post d1 d2 : bool) (tn ff pre suf : string) :
  name_matches tn = true ->
  name_matches ff = true ->
  is_token_validation_present
    (pre ++ "if session[" ++ String (quote_char d1) tn
         ++ String (quote_char d1) "] != request." ++ obj_name post ++ "["
         ++ String (quote_char d2) ff ++ String (quote_char d2) "]" ++ suf)
    tn ff
  = true.
Proof.
  intros _ _.
  unfold is_token_validation_present. apply search_patterns_occurs.
  eexists. split; [right; right; left; reflexivity |].
  exists pre,
    ("if" ++ " " ++ "session" ++ "" ++ "[" ++ String (quote_char d1) ""
     ++ tn ++ String (quote_char d1) "" ++ "]" ++ " " ++ "!=" ++ " "
     ++ "request" ++ "." ++ obj_name post ++ "" ++ "["
     ++ String (quote_char d2) "" ++ ff ++ String (quote_char d2) ""
     ++ "]" ++ "" ++ "")%string,
    suf.
  split.
  - f_equal. cbn [append].
    repeat (rewrite ?append_assoc; cbn [append]). reflexivity.
  - repeat apply Matches_Seq_cons; try apply Matches_Lit;
      try apply Matches_chr; try (constructor; fail).
    all: try (destruct d1; now constructor).
    all: try (destruct d2; now constructor).
    + unfold spaces1, Plus. change " "%string with (" " ++ "")%string.
      constructor; [now constructor | constructor].
    + apply Matches_Star_one. now constructor.
    + apply Matches_Star_one. now constructor.
    + destruct post; [apply MAltR | apply MAltL]; apply Matches_Lit.
Qed.

Lemma X12_witness :
  is_token_validation_present
    ("" ++ "if session[" ++ String (quote_char false) "csrf_token"
        ++ String (quote_char false) "] != request." ++ obj_name true ++ "["
        ++ String (quote_char true) "token" ++ String (quote_char true) "]"
        ++ ":")
    "csrf_token" "token"
  = true.
Proof.
  exact (X12_session_subscript_shape_found true false true
           "csrf_token" "token" "" ":" eq_refl eq_refl).
Defined.


(* ================================================================== *)
(** * Further properties of the exclusion test *)

Section SplitFacts.

Lemma split_not_nil (s : string) : Str.split "/" s <> [].
Proof.
  induction s as [|c s IH]; cbn [Str.split]; [discriminate |].
  destruct (Ascii.eqb c "/"); [discriminate |].
  destruct (Str.split "/" s); discriminate.
Qed.

(** Splitting at a slash splits the list of components. *)
Lemma split_app_sep (x y : string) :
  Str.split "/" (x ++ String "/" y)
  = (Str.split "/" x ++ Str.split "/" y)%list.
Proof.
  induction x as [|c x IH]; [reflexivity |].
  cbn [append Str.split]. destruct (Ascii.eqb c "/").
  - now rewrite IH.
  - rewrite IH. pose proof (split_not_nil x) as Hn.
    destruct (Str.split "/" x); [contradiction | reflexivity].
Qed.

Lemma split_no_slash (f : string) :
  no_slash f = true -> Str.split "/" f = [f].
Proof.
  induction f as [|c f IH]; [reflexivity |].
  cbn [no_slash Str.split]. intros H. apply andb_true_iff in H as [Hc Hf].
  destruct (Ascii.eqb c "/"); [discriminate |].
  now rewrite (IH Hf).
Qed.

Lemma rev_acc_spec (s acc : string) : Str.rev_acc s acc = Str.rev s ++ acc.
Proof.
  unfold Str.rev. revert acc.
  induction s as [|c s IH]; intros acc; [reflexivity |].
  cbn [Str.rev_acc]. rewrite IH, (IH (String c "")), append_assoc. reflexivity.
Qed.

Lemma rev_cons (c : ascii) (s : string) :
  Str.rev (String c s) = Str.rev s ++ String c "".
Proof. unfold Str.rev at 1. cbn [Str.rev_acc]. apply rev_acc_spec. Qed.

Lemma rev_app (a b : string) : Str.rev (a ++ b) = Str.rev b ++ Str.rev a.
Proof.
  induction a as [|c a IH]; cbn [append].
  - now rewrite append_nil_r.
  - now rewrite !rev_cons, IH, append_assoc.
Qed.

Lemma rev_involutive (s : string) : Str.rev (Str.rev s) = s.
Proof.
  induction s as [|c s IH]; [reflexivity |].
  now rewrite rev_cons, rev_app, IH.
Qed.

(** [s.endswith(suf)] holds exactly when [s] is some text followed by
    [suf]. *)
Lemma endswith_spec (s suf : string) :
  Str.endswith s suf = true <-> exists pre, s = pre ++ suf.
Proof.
  unfold Str.endswith. rewrite prefix_spec. split.
  - intros [x H]. exists (Str.rev x).
    rewrite <- (rev_involutive s), H, rev_app, rev_involutive. reflexivity.
  - intros [pre ->]. exists (Str.rev pre). apply rev_app.
Qed.

End SplitFacts.

Section NormpathFacts.

Lemma prefix_nil (s : string) : String.prefix "" s = true.
Proof. now destruct s. Qed.

Lemma prefix_cons_slash (s : string) (c : ascii) (p : string) :
  String.prefix (String "/" s) (String c p)
  = Ascii.eqb c "/" && String.prefix s p.
Proof.
  cbn [String.prefix]. destruct (ascii_dec "/" c) as [<- | N].
  - reflexivity.
  - rewrite (proj2 (Ascii.eqb_neq c "/")) by congruence. reflexivity.
Qed.

Lemma initial_slashes_lead (p : string) :
  initial_slashes_of p
  = match leading_slashes p with
    | 0 => 0
    | 2 => 2
    | _ => 1
    end.
Proof.
  unfold initial_slashes_of, Str.startswith, Path.sep.
  destruct p as [|c1 p]; [reflexivity |].
  rewrite !prefix_cons_slash, prefix_nil. cbn [leading_slashes].
  destruct (Ascii.eqb c1 "/"); cbn [andb]; [| reflexivity].
  destruct p as [|c2 p]; [reflexivity |].
  rewrite !prefix_cons_slash, prefix_nil. cbn [leading_slashes].
  destruct (Ascii.eqb c2 "/"); cbn [andb negb]; [| reflexivity].
  destruct p as [|c3 p]; [reflexivity |].
  rewrite !prefix_cons_slash, prefix_nil. cbn [leading_slashes].
  destruct (Ascii.eqb c3 "/"); reflexivity.
Qed.

Lemma plain_parts (f : string) :
  plain_name f = true ->
  no_slash f = true
  /\ (f =? "")%string = false /\ (f =? ".")%string = false
  /\ (f =? "..")%string = false.
Proof.
  unfold plain_name. rewrite andb_true_iff, negb_true_iff, !orb_false_iff.
  tauto.
Qed.

Lemma plain_leading (f : string) :
  plain_name f = true ->
  leading_slashes f = 0 /\ Str.startswith f Path.sep = false.
Proof.
  intros H. apply plain_parts in H as [Hs [He _]].
  destruct f as [|c f]; [discriminate |].
  cbn [no_slash] in Hs. apply andb_true_iff in Hs as [Hc _].
  apply negb_true_iff in Hc. cbn [leading_slashes]. rewrite Hc.
  split; [reflexivity |].
  unfold Str.startswith, Path.sep. now rewrite prefix_cons_slash, Hc.
Qed.

Lemma leading_after_slash (pre f : string) :
  leading_slashes f = 0 ->
  leading_slashes (pre ++ String "/" f) = leading_slashes (pre ++ "/").
Proof.
  intros Hf. induction pre as [|c pre IH]; cbn [append leading_slashes].
  - now rewrite Hf.
  - now rewrite IH.
Qed.

Lemma leading_before_slash (a t : string) :
  a <> "" -> Str.endswith a "/" = false ->
  leading_slashes (a ++ String "/" t) = leading_slashes a.
Proof.
  induction a as [|c a IH]; intros Hne He; [contradiction |].
  cbn [append leading_slashes].
  destruct (Ascii.eqb c "/") eqn:Ec; [| reflexivity].
  apply Ascii.eqb_eq in Ec. subst c. f_equal. apply IH.
  - intros ->. discriminate.
  - destruct (Str.endswith a "/") eqn:E; [| reflexivity].
    apply endswith_spec in E as [pre ->].
    assert (Str.endswith (String "/" (pre ++ "/")) "/" = true)
      by (apply endswith_spec; now exists (String "/" pre)).
    congruence.
Qed.

(** Joining a plain name to a path. *)
Lemma join_plain_cases (a f : string) :
  plain_name f = true ->
  (a = "" /\ Path.join a f = f)
  \/ (exists pre, a = pre ++ "/" /\ Path.join a f = pre ++ String "/" f)
  \/ (a <> "" /\ Str.endswith a "/" = false
      /\ Path.join a f = a ++ String "/" f).
Proof.
  intros Hf. destruct (plain_leading f Hf) as [_ Hs].
  unfold Path.join. rewrite Hs.
  destruct (String.eqb_spec a "") as [-> | Hne]; [left; auto |].
  cbn [orb]. destruct (Str.endswith a Path.sep) eqn:E.
  - right. left. apply endswith_spec in E as [pre ->].
    exists pre. split; [reflexivity |]. now rewrite append_assoc.
  - right. right. auto.
Qed.

Lemma leading_join_plain (a f : string) :
  plain_name f = true ->
  leading_slashes (Path.join a f) = leading_slashes a.
Proof.
  intros Hf. destruct (plain_leading f Hf) as [Hl _].
  destruct (join_plain_cases a f Hf)
    as [[-> ->] | [[pre [-> ->]] | [Hne [He ->]]]].
  - exact Hl.
  - now apply leading_after_slash.
  - now apply leading_before_slash.
Qed.

Lemma initial_slashes_join_plain (a f : string) :
  plain_name f = true ->
  initial_slashes_of (Path.join a f) = initial_slashes_of a.
Proof.
  intros Hf. now rewrite !initial_slashes_lead, leading_join_plain.
Qed.

Lemma step_plain (n : nat) (stack : list string) (f : string) :
  plain_name f = true -> Path.normpath_step n stack f = f :: stack.
Proof.
  intros H. apply plain_parts in H as [_ [E1 [E2 E3]]].
  unfold Path.normpath_step. now rewrite E1, E2, E3.
Qed.

Lemma fold_step_join_plain (n : nat) (a f : string) :
  plain_name f = true ->
  fold_left (Path.normpath_step n) (Str.split "/" (Path.join a f)) []
  = f :: fold_left (Path.normpath_step n) (Str.split "/" a) [].
Proof.
  intros Hf. destruct (plain_parts f Hf) as [Hs _].
  destruct (join_plain_cases a f Hf)
    as [[-> ->] | [[pre [-> ->]] | [Hne [He ->]]]].
  - rewrite (split_no_slash f Hs). cbn [fold_left Str.split].
    now rewrite step_plain.
  - rewrite !split_app_sep, (split_no_slash f Hs), !fold_left_app.
    cbn [fold_left Str.split]. now rewrite step_plain.
  - rewrite split_app_sep, (split_no_slash f Hs), fold_left_app.
    cbn [fold_left]. now rewrite step_plain.
Qed.

(** After a join with a plain name, that name is the last component. *)
Lemma components_join_plain (a f : string) :
  plain_name f = true ->
  components_of (Path.join a f) = f :: components_of a.
Proof.
  intros Hf. unfold components_of.
  now rewrite initial_slashes_join_plain, fold_step_join_plain.
Qed.

Lemma step_keeps_nonempty (n : nat) (stack : list string) (comp : string) :
  Forall (fun c => c <> "") stack ->
  Forall (fun c => c <> "") (Path.normpath_step n stack comp).
Proof.
  intros H. unfold Path.normpath_step.
  destruct (String.eqb_spec comp "") as [-> | Hne]; [exact H |].
  cbn [orb]. destruct (comp =? ".")%string; [exact H |].
  destruct (_ || _ || _).
  - constructor; assumption.
  - destruct stack; [exact H | now inversion H].
Qed.

Lemma components_nonempty (p : string) :
  Forall (fun c => c <> "") (components_of p).
Proof.
  unfold components_of.
  assert (G : forall l stack, Forall (fun c => c <> "") stack ->
                Forall (fun c => c <> "")
                       (fold_left (Path.normpath_step (initial_slashes_of p))
                                  l stack)).
  { induction l as [|x l IH]; intros stack Hs; [exact Hs |].
    cbn [fold_left]. apply IH. now apply step_keeps_nonempty. }
  apply G. constructor.
Qed.

Lemma concat_snoc (l : list string) (f : string) :
  Str.join "/" (l ++ [f])
  = match l with
    | [] => f
    | _ => Str.join "/" l ++ "/" ++ f
    end.
Proof.
  unfold Str.join. induction l as [|x l IH]; [reflexivity |].
  cbn [app]. destruct l as [|y l].
  - reflexivity.
  - change (String.concat "/" (x :: (y :: l) ++ [f])%list)
      with (x ++ "/" ++ String.concat "/" ((y :: l) ++ [f])%list).
    rewrite IH.
    change (String.concat "/" (x :: y :: l))
      with (x ++ "/" ++ String.concat "/" (y :: l)).
    now rewrite !append_assoc.
Qed.

Lemma concat_not_empty (l : list string) :
  l <> [] -> Forall (fun c => c <> "") l -> Str.join "/" l <> "".
Proof.
  unfold Str.join. destruct l as [|x l]; [contradiction |].
  intros _ H. inversion H as [|? ? Hx _]; subst.
  destruct l; cbn [String.concat]; [exact Hx |].
  destruct x; [contradiction | discriminate].
Qed.

(** [normpath] in terms of its two pieces. *)
Lemma normpath_pieces (p : string) :
  p <> "" ->
  Path.normpath p
  = if (Str.repeat "/" (initial_slashes_of p)
        ++ Str.join "/" (rev (components_of p)) =? "")%string
    then "."
    else Str.repeat "/" (initial_slashes_of p)
         ++ Str.join "/" (rev (components_of p)).
Proof.
  intros Hne. unfold Path.normpath.
  rewrite (proj2 (String.eqb_neq p "") Hne). cbv zeta.
  fold (initial_slashes_of p).
  change (fold_left (Path.normpath_step (initial_slashes_of p))
                    (Str.split "/" p) [])
    with (components_of p).
  destruct (initial_slashes_of p); reflexivity.
Qed.

Lemma append_not_empty_r (s t : string) : t <> "" -> s ++ t <> "".
Proof.
  intros Ht H. apply append_eq_nil in H as [_ H]. contradiction.
Qed.

(** The normal form of a path joined with a plain name. *)
Lemma normpath_join_plain (a f : string) :
  plain_name f = true ->
  Path.normpath (Path.join a f)
  = match components_of a with
    | [] => Str.repeat "/" (initial_slashes_of a) ++ f
    | _ => Str.repeat "/" (initial_slashes_of a)
           ++ Str.join "/" (rev (components_of a)) ++ "/" ++ f
    end.
Proof.
  intros Hf.
  assert (Hfne : f <> "").
  { intros ->. discriminate. }
  assert (Hne : Path.join a f <> "").
  { intros E. pose proof (components_join_plain a f Hf) as Hc.
    rewrite E in Hc. discriminate. }
  rewrite (normpath_pieces _ Hne), initial_slashes_join_plain by exact Hf.
  rewrite (components_join_plain a f Hf). cbn [rev]. rewrite concat_snoc.
  destruct (components_of a) as [|c cs] eqn:Ec.
  - cbn [rev]. rewrite (proj2 (String.eqb_neq _ "")); [reflexivity |].
    now apply append_not_empty_r.
  - destruct (rev (c :: cs)) as [|r rs] eqn:Er.
    + apply (f_equal (@rev string)) in Er.
      rewrite List.rev_involutive in Er. discriminate.
    + rewrite (proj2 (String.eqb_neq _ "")); [reflexivity |].
      apply append_not_empty_r, append_not_empty_r. discriminate.
Qed.

End NormpathFacts.

Section ExclusionBelow.

Lemma normpath_bare (a : string) :
  components_of a = [] -> initial_slashes_of a = 0 -> Path.normpath a = ".".
Proof.
  intros Hc Hn. destruct (String.eqb_spec a "") as [-> | Hne]; [reflexivity |].
  rewrite (normpath_pieces a Hne), Hc, Hn. reflexivity.
Qed.

Lemma normpath_rooted (a : string) :
  components_of a <> [] \/ initial_slashes_of a <> 0 ->
  Path.normpath a
  = Str.repeat "/" (initial_slashes_of a)
    ++ Str.join "/" (rev (components_of a)).
Proof.
  intros G.
  assert (Hne : a <> "") by (intros ->; destruct G as [G | G]; now apply G).
  rewrite (normpath_pieces a Hne).
  rewrite (proj2 (String.eqb_neq _ "")); [reflexivity |].
  destruct G as [G | G].
  - apply append_not_empty_r, concat_not_empty.
    + intros E. apply G. apply (f_equal (@rev string)) in E.
      now rewrite List.rev_involutive in E.
    + apply Forall_rev, components_nonempty.
  - destruct (initial_slashes_of a); [contradiction | discriminate].
Qed.

(** Going one plain name down keeps the normal form of the path as a
    substring, unless that normal form is the bare dot. *)
Lemma normpath_join_contains (a f : string) :
  plain_name f = true ->
  components_of a <> [] \/ initial_slashes_of a <> 0 ->
  Substring (Path.normpath a) (Path.normpath (Path.join a f)).
Proof.
  intros Hf G. rewrite (normpath_rooted a G), (normpath_join_plain a f Hf).
  destruct (components_of a) as [|c cs].
  - exists "", f. cbn [append rev Str.join String.concat].
    now rewrite append_nil_r.
  - exists "", ("/" ++ f). cbn [append]. now rewrite !append_assoc.
Qed.

Lemma normpath_join_ends (a f : string) :
  plain_name f = true -> Substring f (Path.normpath (Path.join a f)).
Proof.
  intros Hf. rewrite (normpath_join_plain a f Hf).
  destruct (components_of a).
  - apply Substring_app_r, Substring_refl.
  - apply Substring_app_r, Substring_app_r, Substring_app_r, Substring_refl.
Qed.

Lemma descend_contains (names : list string) (a : string) :
  Forall (fun n => plain_name n = true) names ->
  components_of a <> [] \/ initial_slashes_of a <> 0 ->
  Substring (Path.normpath a) (Path.normpath (descend a names)).
Proof.
  revert a. induction names as [|n names IH]; intros a Hp G.
  - apply Substring_refl.
  - inversion Hp as [|? ? Hn Hns]; subst. cbn [descend fold_left].
    apply (Substring_trans _ (Path.normpath (Path.join a n))).
    + now apply normpath_join_contains.
    + apply IH; [exact Hns |]. left.
      rewrite (components_join_plain a n Hn). discriminate.
Qed.

Lemma below_contains (a : string) (names : list string) (file : string) :
  Forall (fun n => plain_name n = true) names ->
  plain_name file = true -> Substring "." file ->
  Substring (Path.normpath a) (Path.normpath (descend a (names ++ [file]))).
Proof.
  intros Hp Hf Hdot.
  destruct (components_of a) as [|c cs] eqn:Ec.
  - destruct (initial_slashes_of a) as [|k] eqn:En.
    + rewrite (normpath_bare a Ec En).
      unfold descend. rewrite fold_left_app. cbn [fold_left].
      apply (Substring_trans _ file); [exact Hdot |].
      now apply normpath_join_ends.
    + apply descend_contains.
      * apply Forall_app. split; [exact Hp | now constructor].
      * right. rewrite En. discriminate.
  - apply descend_contains.
    + apply Forall_app. split; [exact Hp | now constructor].
    + left. rewrite Ec. discriminate.
Qed.

(** X14. An exclusion entry excludes the path it names under the scan
    root and every Python file below that path: whatever plain directory
    names lead from the entry down to a file whose name ends in [.py], the
    path that the walk forms for the file is excluded. *)
Theorem X14_entry_excludes_everything_below
    (dir_path ex : string) (exclude names : list string) (file : string) :
  In ex exclude ->
  Forall (fun n => plain_name n = true) names ->
  plain_name file = true ->
  Str.endswith file ".py" = true ->
  is_excluded dir_path exclude (Path.join dir_path ex) = true
  /\ is_excluded dir_path exclude (descend dir_path (ex :: names ++ [file]))
     = true.
Proof.
  intros Hin Hp Hf Hpy. split; apply is_excluded_spec; exists ex;
    (split; [exact Hin |]).
  - now left.
  - right. cbn [descend fold_left].
    apply (below_contains (Path.join dir_path ex) names file Hp Hf).
    apply endswith_spec in Hpy as [pre ->].
    exists pre, "py". reflexivity.
Qed.

Lemma X14_witness :
  is_excluded "proj" ["sub"] "proj/sub"= true
  /\ is_excluded "proj" ["sub"] "proj/sub/test_views.py" = true.
Proof.
  apply (X14_entry_excludes_everything_below
           "proj" "sub" ["sub"] [] "test_views.py").
  - now left.
  - constructor.
  - reflexivity.
  - reflexivity.
Defined.

Lemma normpath_join_dot (ex : string) :
  Path.normpath (Path.join "." ex) = Path.normpath ex.
Proof.
  unfold Path.join. destruct (Str.startswith ex Path.sep) eqn:Es;
    [reflexivity |].
  change ((("." =? "")%string || Str.endswith "." Path.sep)) with false.
  cbv iota. change ("." ++ Path.sep ++ ex) with (String "." (String "/" ex)).
  destruct ex as [|c ex]; [reflexivity |].
  unfold Str.startswith, Path.sep in Es.
  rewrite prefix_cons_slash, prefix_nil, andb_true_r in Es.
  unfold Path.normpath. cbn [String.eqb]. cbv zeta.
  unfold Str.startswith, Path.sep.
  rewrite !(prefix_cons_slash _ c), Es. cbn [andb].
  change (String.prefix "/" (String "." (String "/" (String c ex))))
    with false.
  cbv iota.
  change (Str.split "/" (String "." (String "/" (String c ex))))
    with ("."%string :: Str.split "/" (String c ex)).
  reflexivity.
Qed.

(** X13. When the scan root is the current directory [.], an entry is
    compared as it stands: a path is excluded exactly when its normal form
    equals, or contains as a substring, the normal form of some entry. *)
Theorem X13_exclusion_under_current_directory
    (exclude : list string) (file_path : string) :
  is_excluded "." exclude file_path = true
  <-> exists ex,
        In ex exclude
        /\ (Path.normpath file_path = Path.normpath ex
            \/ Substring (Path.normpath ex) (Path.normpath file_path)).
Proof.
  rewrite is_excluded_spec.
  split; intros [ex [Hin H]]; exists ex; (split; [exact Hin |]).
  - now rewrite normpath_join_dot in H.
  - now rewrite normpath_join_dot.
Qed.

End ExclusionBelow.
